(** * Fleet reconciliation: a model of [merge-fleet-records.js]

    The development embeds the reconciliation pipeline of
    [generateAndMerge] from its step 4 on, the line parser
    [parseCsvRecords] and the command-line entry point, and proves
    properties of that embedding.

    What steps 1 to 3 produce is an input of the model: the rendered CSV
    of today, the time stamp, and the text of yesterday's file when one was
    found.  Each [saveJson] call and the write of the merged file is an
    output event; a sink tells whether a write succeeds or throws.  The
    JSON text itself is not modelled: a document is held as its records.

    JavaScript strings are modelled as [string]: sequences of code units in
    the range U+0000..U+00FF.  JavaScript numbers that index arrays are
    integers and are modelled in [Z]; list lengths are [nat].  A value that
    may be [undefined] is an [option]. *)

From Stdlib Require Import ZArith Lia Ascii String DecimalString DecimalNat.
From stdpp Require Import base tactics option list strings.

Local Open Scope Z_scope.
Local Open Scope string_scope.
Local Open Scope list_scope.
Local Open Scope nat_scope.

(** ** Text primitives *)

Module Text.

Definition LF : ascii := ascii_of_nat 10.
Definition CR : ascii := ascii_of_nat 13.
Definition COMMA : ascii := ","%char.
Definition NL : string := String LF EmptyString.

Definition code (a : ascii) : nat := nat_of_ascii a.

(** White space removed by [String.prototype.trim], restricted to the
    modelled range: TAB, LF, VT, FF, CR, SPACE and NBSP. *)
Definition is_ws (a : ascii) : bool :=
  let n := code a in
  ((9 <=? n) && (n <=? 13)) || (n =? 32) || (n =? 160).

(** The character class [[0-9]]. *)
Definition is_digit (a : ascii) : bool :=
  let n := code a in (48 <=? n) && (n <=? 57).

Fixpoint trim_start (s : string) : string :=
  match s with
  | EmptyString => EmptyString
  | String a s' => if is_ws a then trim_start s' else s
  end.

Fixpoint trim_end (s : string) : string :=
  match s with
  | EmptyString => EmptyString
  | String a s' =>
      match trim_end s' with
      | EmptyString => if is_ws a then EmptyString else String a EmptyString
      | r => String a r
      end
  end.

(** [s.trim()] *)
Definition trim (s : string) : string := trim_end (trim_start s).

(** Puts a character in front of the first piece of a split. *)
Definition push_front (a : ascii) (pieces : list string) : list string :=
  match pieces with
  | [] => [String a EmptyString]
  | p :: ps => String a p :: ps
  end.

(** [s.split(',')] and, generally, a split on a one-character separator:
    the empty string gives one empty piece. *)
Fixpoint split_on (sep : ascii) (s : string) : list string :=
  match s with
  | EmptyString => [EmptyString]
  | String a s' =>
      if Ascii.eqb a sep then EmptyString :: split_on sep s'
      else push_front a (split_on sep s')
  end.

(** [s.split(/\r?\n/)]: a cut at every LF, which takes a CR that stands
    right before it; a CR elsewhere is an ordinary character. *)
Fixpoint split_lines (s : string) : list string :=
  match s with
  | EmptyString => [EmptyString]
  | String a s' =>
      if Ascii.eqb a LF then EmptyString :: split_lines s'
      else
        match s' with
        | String b s'' =>
            if Ascii.eqb a CR && Ascii.eqb b LF
            then EmptyString :: split_lines s''
            else push_front a (split_lines s')
        | EmptyString => push_front a (split_lines s')
        end
  end.

(** [arr.join(sep)] on an array of strings. *)
Fixpoint join (sep : string) (l : list string) : string :=
  match l with
  | [] => EmptyString
  | [x] => x
  | x :: t => x +:+ sep +:+ join sep t
  end.

(** [/^[0-9]+$/.test(s)] *)
Definition is_pure_number (s : string) : bool :=
  match s with
  | EmptyString => false
  | _ => forallb is_digit (list_ascii_of_string s)
  end.

Definition nonblank (s : string) : bool :=
  negb (String.eqb s EmptyString).

(** [n.toString()] for a non-negative integer below 10^21. *)
Definition toString (n : nat) : string :=
  NilZero.string_of_uint (Nat.to_uint n).

(** [s.toLowerCase()] on the modelled range: A..Z and the Latin-1
    capitals other than the multiplication sign. *)
Definition lower (a : ascii) : ascii :=
  let n := code a in
  if ((65 <=? n) && (n <=? 90))
     || ((192 <=? n) && (n <=? 222) && negb (n =? 215))
  then ascii_of_nat (n + 32) else a.

Fixpoint toLowerCase (s : string) : string :=
  match s with
  | EmptyString => EmptyString
  | String a s' => String (lower a) (toLowerCase s')
  end.

End Text.

(** ** JavaScript array operations on lists *)

Module Arr.
Section ops.
Context {A : Type}.

(** A relative index as [slice] and [splice] read it: a negative one counts
    from the end, and the result is clamped to [0 .. len]. *)
Definition clamp (len : nat) (k : Z) : nat :=
  if (k <? 0)%Z then Z.to_nat (Z.max (Z.of_nat len + k) 0)
  else Z.to_nat (Z.min k (Z.of_nat len)).

(** [l.slice(start, stop)]; [stop = None] is [l.slice(start)]. *)
Definition slice (start : Z) (stop : option Z) (l : list A) : list A :=
  let from := clamp (length l) start in
  let to := match stop with
            | None => length l
            | Some e => clamp (length l) e
            end in
  take (to - from) (drop from l).

(** [l.splice(start, count)]: the removed elements, and the array that is
    left. *)
Definition splice (start count : Z) (l : list A) : list A * list A :=
  let from := clamp (length l) start in
  let n := Z.to_nat (Z.min (Z.max count 0) (Z.of_nat (length l - from))) in
  (take n (drop from l), take from l ++ drop (from + n) l).

(** [l.shift()], for the array that is left: nothing happens to an empty
    array. *)
Definition shift (l : list A) : list A := drop 1 l.

(** [l[i]]: [undefined] at a negative index and past the end. *)
Definition get (l : list A) (i : Z) : option A :=
  if (i <? 0)%Z then None else l !! Z.to_nat i.

(** [l[i] = v] on an array that may have holes: a write past the end
    extends the array, and the elements in between are holes. *)
Definition set_at (l : list (option A)) (i : nat) (v : option A)
  : list (option A) :=
  if i <? length l then <[i := v]> l
  else l ++ replicate (i - length l) None ++ [v].

End ops.
End Arr.

(** ** Field schemas and records *)

(** Index mapping for both defleet and update JSONs. *)
Module defleetIdx.
Definition license_plate_number : nat := 2.
Definition license_plate_state : nat := 3.
Definition year : nat := 4.
Definition make : nat := 5.
Definition model : nat := 6.
Definition color : nat := 7.
Definition vin : nat := 8.
End defleetIdx.

(** Column mapping for error records only, in the order of its entries. *)
Definition errorColumnMapping : list (string * nat) :=
  [ ("brand", 0); ("ody_vehicle_id_number", 1); ("license_plate_number", 2);
    ("license_plate_state", 3); ("year", 4); ("make", 5); ("model", 6);
    ("color", 7); ("vin", 8); ("location_group", 9); ("location_code", 10);
    ("location_name", 11); ("address_1", 12); ("address_2", 13);
    ("city", 14); ("state", 15); ("zip", 16); ("phone_number", 17);
    ("vehicle_erac", 18) ].

(** The fixed words used to overwrite the [color] field. *)
Definition commonWords : list string := ["delta"].

(** A field read with [cols[i]] is a string or [undefined]. *)
Abbreviation jsval := (option string).

(** The object literal of the defleet, update and infleet projections. *)
Record vehicle : Type := Vehicle {
  license_plate_number : jsval;
  license_plate_state : jsval;
  year : jsval;
  make : jsval;
  model : jsval;
  color : jsval;
  vin : jsval
}.

(** The object literal of the fleet projection: only LPN and LPS. *)
Module Fleet.
Record plate : Type := Plate {
  license_plate_number : jsval;
  license_plate_state : jsval
}.
End Fleet.

(** An error record: its keys with their values, in insertion order. *)
Definition error_record : Type := list (string * string).

Definition cols_of (line : string) : list string :=
  Text.split_on Text.COMMA line.

(** The projection used at steps 5 and 8 (defleet and infleet). *)
Definition project_vehicle (line : string) : vehicle :=
  let cols := cols_of line in
  {| license_plate_number := cols !! defleetIdx.license_plate_number;
     license_plate_state := cols !! defleetIdx.license_plate_state;
     year := cols !! defleetIdx.year;
     make := cols !! defleetIdx.make;
     model := cols !! defleetIdx.model;
     color := cols !! defleetIdx.color;
     vin := cols !! defleetIdx.vin |}.

(** [words[i % words.length]]: [undefined] when the list is empty. *)
Definition word_at (words : list string) (i : nat) : jsval :=
  match length words with
  | 0 => None
  | S _ => words !! (i mod length words)
  end.

(** The projection of step 6 (update): the colour comes from the words. *)
Definition project_update (words : list string) (i : nat) (line : string)
  : vehicle :=
  let cols := cols_of line in
  {| license_plate_number := cols !! defleetIdx.license_plate_number;
     license_plate_state := cols !! defleetIdx.license_plate_state;
     year := cols !! defleetIdx.year;
     make := cols !! defleetIdx.make;
     model := cols !! defleetIdx.model;
     color := word_at words i;
     vin := cols !! defleetIdx.vin |}.

(** [cols[idx] || ''] *)
Definition or_empty (v : jsval) : string :=
  match v with
  | Some s => if Text.nonblank s then s else EmptyString
  | None => EmptyString
  end.

(** The projection of step 8 (error records), one entry per mapping. *)
Definition project_error (line : string) : error_record :=
  let cols := cols_of line in
  (fun '(key, idx) => (key, or_empty (cols !! idx))) <$> errorColumnMapping.

(** The projection of the fleet records. *)
Definition project_plate (r : vehicle) : Fleet.plate :=
  {| Fleet.license_plate_number := license_plate_number r;
     Fleet.license_plate_state := license_plate_state r |}.

(** [cols.join(',')] on an array with holes: a hole is rendered empty. *)
Definition join_cols (cols : list jsval) : string :=
  Text.join "," (default EmptyString <$> cols).

(** ** The line parsers *)

(** Splits CSV text into an array of trimmed lines, dropping blank lines
    and pure-number lines. *)
Definition parseCsvRecords (text : string) : list string :=
  filter (fun line => Text.nonblank line && negb (Text.is_pure_number line))
         (Text.trim <$> Text.split_lines text).

(** The lines of yesterday's file at step 4, before the count line and the
    error rows are dropped. *)
Definition snapshot_lines (text : string) : list string :=
  filter (fun l => Text.nonblank l) (Text.trim <$> Text.split_lines text).

(** ** Effects: emitted outputs and failures *)

(** What stops a run: the [TypeError] of a method call on [undefined], or a
    persistence call that throws. *)
Inductive failure : Type :=
| TypeError
| IOFailure.

(** The payload of a JSON document.  [JSON.stringify] leaves out a key
    whose value is [undefined]. *)
Inductive record_set : Type :=
| Vehicles (l : list vehicle)
| ErrorRows (l : list error_record)
| Plates (l : list Fleet.plate).

(** One output of a run: a JSON document of [saveJson], or the merged
    file. *)
Inductive emission : Type :=
| SavedJson (folder name ts : string) (data : record_set)
| WrittenFile (dir fileName text : string).

Inductive outcome (A : Type) : Type :=
| Done (a : A)
| Thrown (e : failure).
Arguments Done {A} a.
Arguments Thrown {A} e.

(** A computation that may write outputs and may throw.  [sink] tells
    whether a write succeeds; the log holds the outputs written so far, the
    oldest first. *)
Definition M (A : Type) : Type :=
  (emission -> bool) -> list emission -> list emission * outcome A.

#[export] Instance M_ret : MRet M :=
  fun A a _ log => (log, Done a).

#[export] Instance M_bind : MBind M :=
  fun A B k m sink log =>
    match m sink log with
    | (log', Done a) => k a sink log'
    | (log', Thrown e) => (log', Thrown e)
    end.

Definition emit (e : emission) : M unit :=
  fun sink log =>
    if sink e then (log ++ [e], Done tt) else (log, Thrown IOFailure).

(** An [if (c) stmt;] without an else branch. *)
Definition when (c : bool) (m : M unit) : M unit :=
  if c then m else mret tt.

Definition lift {A : Type} (o : outcome A) : M A :=
  fun _ log => (log, o).

(** Runs a computation from an empty log. *)
Definition exec {A : Type} (sink : emission -> bool) (m : M A)
  : list emission * outcome A :=
  m sink [].

(** Output directories for JSON files. *)
Definition defleetOutputDir : string := "defleet".
Definition updateOutputDir : string := "update".
Definition errorOutputDir : string := "error_records".
Definition infleetOutputDir : string := "infleet_records".
Definition fleetOutputDir : string := "fleet_records".
Definition historyOutputDir : string := "history_records".
Definition mergedOutputDir : string := "D:/mergeddata".

(** Save JSON helper. *)
Definition saveJson (folder name ts : string) (data : record_set) : M unit :=
  emit (SavedJson folder name ts data).

(** ** The reconciliation pipeline *)

(** Step 4: load and clean yesterday's data; [None] is a file that was not
    found. *)
Definition load_yesterday (yest : option string) : list string :=
  match yest with
  | Some text =>
      let raw := Arr.shift (snapshot_lines text) in
      if 2 <=? length raw then snd (Arr.splice (-2) 2 raw) else raw
  | None => []
  end.

(** Step 5: the defleet batch and the records that are left. *)
Definition take_defleet (oldRecords : list string)
  : list string * list string :=
  if 10 <=? length oldRecords then Arr.splice (-10) 10 oldRecords
  else ([], oldRecords).

(** Step 10: the text of the merged file. *)
Definition merge_csv (oldRecords newRecords : list string) : string :=
  let total := length oldRecords + length newRecords in
  let merged := Text.toString total :: oldRecords ++ newRecords in
  Text.join Text.NL merged.

(** Step 8: the error, infleet and fleet records of the new lines. *)
Definition errorRecords (newRecords : list string) : list error_record :=
  project_error <$> Arr.slice (-2) None newRecords.

(** INFLEET = all new records except last two. *)
Definition infleetRecords (newRecords : list string) : list vehicle :=
  project_vehicle <$> Arr.slice 0 (Some (-2)%Z) newRecords.

(** FLEET = only LPN + LPS from infleet. *)
Definition fleetRecords (newRecords : list string) : list Fleet.plate :=
  project_plate <$> infleetRecords newRecords.

(** Step 6: where the update batch starts, and the batch. *)
Definition updateStart (oldRecords : list string) : Z :=
  (Z.of_nat (length oldRecords) - 10)%Z.

Definition updateBatch (oldRecords : list string) : list string :=
  Arr.slice (updateStart oldRecords) None oldRecords.

Section Words.
Variable words : list string.

Definition updateData (oldRecords : list string) : list vehicle :=
  imap (project_update words) (updateBatch oldRecords).

(** The line that the override loop writes back at iteration [i]. *)
Definition recolor (i : nat) (line : string) : string :=
  let cols :=
    Arr.set_at (Some <$> cols_of line) defleetIdx.color (word_at words i) in
  join_cols cols.

(** The loop of step 6 that applies the colour override in the CSV lines:
    [i] is the loop counter and [todo] the number of iterations left.  A
    line is written back at the index it was read from. *)
Fixpoint override_from (start : Z) (i todo : nat)
    (oldRecords : list string) : outcome (list string) :=
  match todo with
  | 0 => Done oldRecords
  | S todo' =>
      let idx := (start + Z.of_nat i)%Z in
      match Arr.get oldRecords idx with
      | None => Thrown TypeError
      | Some line =>
          override_from start (S i) todo'
                        (<[Z.to_nat idx := recolor i line]> oldRecords)
      end
  end.

Definition apply_override (oldRecords : list string)
  : outcome (list string) :=
  override_from (updateStart oldRecords) 0 (length (updateBatch oldRecords))
                oldRecords.

(** History = infleet + update. *)
Definition historyRecords (oldRecords newRecords : list string)
  : list vehicle :=
  infleetRecords newRecords ++ updateData oldRecords.

(** Steps 5 to 10 on the cleaned old records and the parsed new ones. *)
Definition reconcile (ts fileName : string)
    (oldRecords newRecords : list string) : M unit :=
  (* 5. Defleet *)
  let '(defleetBatch, oldRecords) := take_defleet oldRecords in
  let defleetData := project_vehicle <$> defleetBatch in
  when (negb (length defleetData =? 0))
       (saveJson defleetOutputDir "defleet" ts (Vehicles defleetData)) ;;
  (* 6. Update *)
  when (negb (length (updateData oldRecords) =? 0))
       (saveJson updateOutputDir "update" ts
                 (Vehicles (updateData oldRecords))) ;;
  mutated ← lift (apply_override oldRecords) ;
  (* 8. Generate error + infleet + fleet JSONs *)
  saveJson errorOutputDir "error_records" ts
           (ErrorRows (errorRecords newRecords)) ;;
  saveJson infleetOutputDir "infleet_records" ts
           (Vehicles (infleetRecords newRecords)) ;;
  saveJson fleetOutputDir "fleet_records" ts
           (Plates (fleetRecords newRecords)) ;;
  (* 9. History = infleet + update *)
  saveJson historyOutputDir "history_records" ts
           (Vehicles (historyRecords oldRecords newRecords)) ;;
  (* 10. Merge CSV *)
  emit (WrittenFile mergedOutputDir fileName
                    (merge_csv mutated newRecords)).

(** [generateAndMerge] from step 4 on: [todayCsv] is the rendered batch of
    step 1 and [yest] the text of the file of step 3, if one was found;
    [ts] is the time stamp of step 2. *)
Definition generateAndMerge_from (ts fmt todayCsv : string)
    (yest : option string) : M unit :=
  let fileName := "em-fleet-" +:+ ts +:+ "." +:+ fmt in
  let oldRecords := load_yesterday yest in
  (* 7. Parse today's new records *)
  let newRecords := parseCsvRecords todayCsv in
  reconcile ts fileName oldRecords newRecords.

End Words.

(** The pipeline with the word list of the source. *)
Definition generateAndMerge : string -> string -> string -> option string
                              -> M unit :=
  generateAndMerge_from commonWords.

(** ** The entry point *)

Inductive entry : Type :=
| UsageError
| Start (count : Z) (fmt : string).

Definition digit_val (a : ascii) : Z := Z.of_nat (Text.code a - 48).

Fixpoint digits_prefix (s : string) : list ascii :=
  match s with
  | EmptyString => []
  | String a s' => if Text.is_digit a then a :: digits_prefix s' else []
  end.

(** The sign that [parseInt] reads, and the text after it. *)
Definition split_sign (t : string) : Z * string :=
  match t with
  | String "-" r => ((-1)%Z, r)
  | String "+" r => (1%Z, r)
  | _ => (1%Z, t)
  end.

(** [parseInt(raw, 10)]: [None] is [NaN].  White space is skipped, a sign
    is read, and the longest run of digits gives the value; what follows
    the digits is ignored.  An absent argument reads as the text
    [undefined], which has no digit. *)
Definition parseInt10 (raw : option string) : option Z :=
  match raw with
  | None => None
  | Some s =>
      let '(sign, body) := split_sign (Text.trim_start s) in
      match digits_prefix body with
      | [] => None
      | ds => Some (sign * fold_left (fun acc d => acc * 10 + digit_val d)
                                     ds 0)%Z
      end
  end.

(** [rawFmt || 'csv'] *)
Definition fmt_or_csv (rawFmt : option string) : string :=
  match rawFmt with
  | Some f => if Text.nonblank f then f else "csv"
  | None => "csv"
  end.

(** [['csv','txt'].includes(fmt)] *)
Definition accepted_fmt (fmt : string) : bool :=
  String.eqb fmt "csv" || String.eqb fmt "txt".

(** CLI entry point, on [process.argv.slice(2)]. *)
Definition main (argv : list string) : entry :=
  let rawCount := argv !! 0 in
  let rawFmt := argv !! 1 in
  let count := parseInt10 rawCount in
  let fmt := Text.toLowerCase (fmt_or_csv rawFmt) in
  match count with
  | None => UsageError
  | Some c => if accepted_fmt fmt then Start c fmt else UsageError
  end.

(** ** Observations on the outputs of a run *)

(** The directory an output goes to. *)
Definition destination (e : emission) : string :=
  match e with
  | SavedJson folder _ _ _ => folder
  | WrittenFile dir _ _ => dir
  end.

Definition destinations (log : list emission) : list string :=
  destination <$> log.

(** What an output holds and where it goes, apart from the time stamp and
    the format in its file name. *)
Definition content (e : emission)
  : (string * string * record_set) + (string * string) :=
  match e with
  | SavedJson folder name _ data => inl (folder, name, data)
  | WrittenFile dir _ text => inr (dir, text)
  end.

Definition is_merged (e : emission) : bool :=
  match e with
  | WrittenFile _ _ _ => true
  | SavedJson _ _ _ _ => false
  end.

(** The six record sets and the merged snapshot. *)
Definition all_destinations : list string :=
  [ defleetOutputDir; updateOutputDir; errorOutputDir; infleetOutputDir;
    fleetOutputDir; historyOutputDir; mergedOutputDir ].

Definition emits_to (log : list emission) (dir : string) : bool :=
  existsb (String.eqb dir) (destinations log).

(** All seven outputs were produced, or none was. *)
Definition all_or_nothing (log : list emission) : Prop :=
  forallb (emits_to log) all_destinations = true \/ log = [].

(** A sink that takes every write. *)
Definition accept_all : emission -> bool := fun _ => true.

(** A sink that refuses the writes to one directory. *)
Definition refuse_dir (dir : string) : emission -> bool :=
  fun e => negb (String.eqb (destination e) dir).

(** A line that reads back as one line: no LF in it, and no CR at its
    end. *)
Fixpoint one_line (s : string) : bool :=
  match s with
  | EmptyString => true
  | String a s' =>
      negb (Ascii.eqb a Text.LF)
      && match s' with
         | EmptyString => negb (Ascii.eqb a Text.CR)
         | _ => one_line s'
         end
  end.

(** A list of one-line texts. *)
Abbreviation one_lines ls := (Forall (fun l => one_line l = true) ls).

(** ** The plan of a run *)

(** The outputs that come before the override loop. *)
Definition early_outputs (words : list string) (ts : string)
    (old : list string) : list emission :=
  let '(defleetBatch, working) := take_defleet old in
  (if length defleetBatch =? 0 then []
   else [SavedJson defleetOutputDir "defleet" ts
                   (Vehicles (project_vehicle <$> defleetBatch))])
  ++ (if length (updateData words working) =? 0 then []
      else [SavedJson updateOutputDir "update" ts
                      (Vehicles (updateData words working))]).

(** The outputs that come after it. *)
Definition late_outputs (words : list string) (ts fileName : string)
    (working mutated new : list string) : list emission :=
  [ SavedJson errorOutputDir "error_records" ts (ErrorRows (errorRecords new));
    SavedJson infleetOutputDir "infleet_records" ts
              (Vehicles (infleetRecords new));
    SavedJson fleetOutputDir "fleet_records" ts (Plates (fleetRecords new));
    SavedJson historyOutputDir "history_records" ts
              (Vehicles (historyRecords words working new));
    WrittenFile mergedOutputDir fileName (merge_csv mutated new) ].

(** Writes the outputs of a plan one after the other, until the sink
    refuses one. *)
Fixpoint write_all (sink : emission -> bool) (plan : list emission)
    (log : list emission) : list emission * outcome unit :=
  match plan with
  | [] => (log, Done tt)
  | e :: rest =>
      if sink e then write_all sink rest (log ++ [e])
      else (log, Thrown IOFailure)
  end.

(** Reads a count line back: the number that a decimal numeral stands
    for. *)
Definition read_count (s : string) : option nat :=
  Nat.of_uint <$> NilZero.uint_of_string s.

(** A text in which a character does not occur. *)
Fixpoint free_of (sep : ascii) (s : string) : bool :=
  match s with
  | EmptyString => true
  | String a s' => negb (Ascii.eqb a sep) && free_of sep s'
  end.

(** A piece of [split_lines] against the piece of a split on LF alone: the
    same text, or the same text with a CR after it. *)
Definition up_to_cr (x y : string) : Prop :=
  y = x \/ y = x +:+ String Text.CR "".

(** Columns that join into one line: no LF in any of them, and no CR at
    the end of the last one. *)
Fixpoint cols_one_line (cols : list string) : bool :=
  match cols with
  | [] => true
  | [x] => one_line x
  | x :: rest => free_of Text.LF x && cols_one_line rest
  end.

(** ** Synthetic fleet data *)

(** [s.padStart(n, fill)] with a fill of one character. *)
Definition padStart (n : nat) (fill : ascii) (s : string) : string :=
  string_of_list_ascii (replicate (n - String.length s) fill) +:+ s.

(** [faker.helpers.arrayElement(['ADN'])]: the only element there is. *)
Definition plate_prefix : string := "ADN".

(** Generate IDs and plates. *)
Definition generateOdyVehicleId (i : nat) : string :=
  "ODY-" +:+ plate_prefix +:+ padStart 4 "0" (Text.toString i).

Definition generateEracVehicleId (i : nat) : string :=
  "ERAC-" +:+ plate_prefix +:+ padStart 4 "0" (Text.toString i).

Definition generateRandomLicensePlate (i : nat) : string :=
  plate_prefix +:+ padStart 4 "0" (Text.toString i).

(** What [Math.random] and [faker] give for one row. *)
Record drawn : Type := Drawn {
  drawn_brand : string;
  drawn_year : Z;
  drawn_make : string;
  drawn_model : string;
  drawn_color : string;
  drawn_vin : string;
  drawn_location_code : jsval;
  drawn_location_name : string;
  drawn_location_1 : string;
  drawn_city : string;
  drawn_state : string;
  drawn_zip : Z;
  drawn_phone_number : string
}.

(** One row of synthetic fleet data. *)
Module FleetRow.
Record t : Type := Make {
  brand : string;
  ody_vehicle_id_number : string;
  license_plate_number : string;
  license_plate_state : jsval;
  year : Z;
  make : string;
  model : string;
  color : string;
  vin : string;
  location_group : string;
  location_code : jsval;
  location_name : string;
  location_1 : string;
  location_2 : string;
  city : string;
  state : string;
  zip : Z;
  phone_number : string;
  vehicle_erac : string
}.

(** [row.license_plate_number = v] *)
Definition set_license_plate_number (v : string) (r : t) : t :=
  Make (brand r) (ody_vehicle_id_number r) v (license_plate_state r)
       (year r) (make r) (model r) (color r) (vin r) (location_group r)
       (location_code r) (location_name r) (location_1 r) (location_2 r)
       (city r) (state r) (zip r) (phone_number r) (vehicle_erac r).

(** [row.license_plate_state = v] *)
Definition set_license_plate_state (v : string) (r : t) : t :=
  Make (brand r) (ody_vehicle_id_number r) (license_plate_number r) (Some v)
       (year r) (make r) (model r) (color r) (vin r) (location_group r)
       (location_code r) (location_name r) (location_1 r) (location_2 r)
       (city r) (state r) (zip r) (phone_number r) (vehicle_erac r).
End FleetRow.

Section Generation.
(** The table of [data/usStates], and the values drawn for row [i].  The
    draw of [state] is [faker.helpers.arrayElement(usStates)], which throws
    on an empty table: the rows below are those of a table that is not
    empty, and the properties of the generator assume one. *)
Variable usStates : list string.
Variable draw : nat -> drawn.

(** The object pushed at iteration [i] of the loop. *)
Definition generated_row (i : nat) : FleetRow.t :=
  let d := draw i in
  {| FleetRow.brand := drawn_brand d;
     FleetRow.ody_vehicle_id_number := generateOdyVehicleId i;
     FleetRow.license_plate_number := generateRandomLicensePlate i;
     FleetRow.license_plate_state := usStates !! ((i - 1) mod length usStates);
     FleetRow.year := drawn_year d;
     FleetRow.make := drawn_make d;
     FleetRow.model := drawn_model d;
     FleetRow.color := drawn_color d;
     FleetRow.vin := drawn_vin d;
     FleetRow.location_group :=
       "GroupFR" +:+ padStart 5 "0" (Text.toString i);
     FleetRow.location_code := drawn_location_code d;
     FleetRow.location_name := drawn_location_name d;
     FleetRow.location_1 := drawn_location_1 d;
     FleetRow.location_2 := "Block " +:+ padStart 6 "0" (Text.toString i);
     FleetRow.city := drawn_city d;
     FleetRow.state := drawn_state d;
     FleetRow.zip := drawn_zip d;
     FleetRow.phone_number := drawn_phone_number d;
     FleetRow.vehicle_erac := generateEracVehicleId i |}.

(** Generate [count] rows of synthetic fleet data: the loop runs for
    [i = 1 .. count], and not at all for a count below 1.  Two fields are
    blanked in the last two records if there are at least 10. *)
Definition generateSFleetData (count : Z) : list FleetRow.t :=
  let arr := generated_row <$> seq 1 (Z.to_nat count) in
  if 10 <=? length arr then
    let last := length arr - 1 in
    alter (FleetRow.set_license_plate_state "") (last - 1)
          (alter (FleetRow.set_license_plate_number "") last arr)
  else arr.

End Generation.

(** ** Yesterday's file on the remote store *)

(** What is left of [s] after the prefix [p], if [s] starts with it. *)
Fixpoint strip_prefix (p s : string) : option string :=
  match p, s with
  | EmptyString, _ => Some s
  | String a p', String b s' =>
      if Ascii.eqb a b then strip_prefix p' s' else None
  | String _ _, EmptyString => None
  end.

(** The test of the regular expression
    [^em-fleet-${key}-\d{2}-\d{2}\.${fmt}$], for a key and a format that
    stand for themselves in it: a date of digits and dashes, and [csv] or
    [txt]. *)
Definition matches_name (key fmt name : string) : bool :=
  match strip_prefix ("em-fleet-" +:+ key +:+ "-") name with
  | Some (String a (String b (String dash (String c (String d rest))))) =>
      Text.is_digit a && Text.is_digit b && Ascii.eqb dash "-"
      && Text.is_digit c && Text.is_digit d
      && String.eqb rest ("." +:+ fmt)
  | _ => false
  end.

Section Remote.
(** [a.localeCompare(b)] and [path.posix.join(dir, name)], as the platform
    gives them. *)
Variable localeCompare : string -> string -> Z.
Variable join_path : string -> string -> string.

(** One step of [sort] with the comparator
    [(a, b) => b.name.localeCompare(a.name)]: [x] goes before the first
    name that does not sort before it. *)
Fixpoint insert_descending (x : string) (l : list string) : list string :=
  match l with
  | [] => [x]
  | y :: t =>
      if (localeCompare y x <=? 0)%Z then x :: y :: t
      else y :: insert_descending x t
  end.

(** [matches.sort((a, b) => b.name.localeCompare(a.name))], as a stable
    sort. *)
Definition sort_descending (l : list string) : list string :=
  foldr insert_descending [] l.

(** The path of the latest file of yesterday among the names that
    [sftpClient.list] gave; [key] is yesterday's date in the format
    [MM-dd-yyyy]. *)
Definition getYesterdayRemoteFile (names : list string)
    (remoteDir key fmt : string) : option string :=
  let matches := filter (fun name => matches_name key fmt name) names in
  if length matches =? 0 then None
  else join_path remoteDir <$> head (sort_descending matches).

(** A call on the SFTP client. *)
Inductive sftp_call : Type :=
| SftpConnect
| SftpList (dir : string)
| SftpGet (remote local : string)
| SftpEnd.

(** What the remote side does: whether the connection is made, the names
    in the directory unless the listing throws, and whether a download
    succeeds. *)
Record remote : Type := Remote {
  connect_ok : bool;
  listing : option (list string);
  get_ok : string -> bool
}.

(** A computation on the SFTP client: it may call the client and may
    throw. *)
Definition R (A : Type) : Type :=
  remote -> list sftp_call -> list sftp_call * outcome A.

#[export] Instance R_ret : MRet R :=
  fun A a _ trace => (trace, Done a).

#[export] Instance R_bind : MBind R :=
  fun A B k m env trace =>
    match m env trace with
    | (trace', Done a) => k a env trace'
    | (trace', Thrown e) => (trace', Thrown e)
    end.

(** [try { body } finally { last }] *)
Definition try_finally {A : Type} (body : R A) (last : R unit) : R A :=
  fun env trace =>
    let '(trace', out) := body env trace in
    match last env trace' with
    | (trace'', Done _) => (trace'', out)
    | (trace'', Thrown e) => (trace'', Thrown e)
    end.

Definition sftp_connect : R unit :=
  fun env trace =>
    (trace ++ [SftpConnect],
     if connect_ok env then Done tt else Thrown IOFailure).

Definition sftp_list (dir : string) : R (list string) :=
  fun env trace =>
    (trace ++ [SftpList dir],
     match listing env with
     | Some names => Done names
     | None => Thrown IOFailure
     end).

Definition sftp_get (remotePath localPath : string) : R unit :=
  fun env trace =>
    (trace ++ [SftpGet remotePath localPath],
     if get_ok env remotePath then Done tt else Thrown IOFailure).

Definition sftp_end : R unit :=
  fun _ trace => (trace ++ [SftpEnd], Done tt).

(** Downloads yesterday's file to [localPath]: the path when a file was
    found and fetched, [null] when there is none. *)
Definition downloadYesterdayFile (sftpRemoteDir key : string)
    (localPath fmt : string) : R (option string) :=
  try_finally
    (sftp_connect ;;
     names ← sftp_list sftpRemoteDir ;
     match getYesterdayRemoteFile names sftpRemoteDir key fmt with
     | None => mret None
     | Some remotePath =>
         sftp_get remotePath localPath ;;
         mret (Some localPath)
     end)
    sftp_end.

End Remote.

Definition is_end (c : sftp_call) : bool :=
  match c with
  | SftpEnd => true
  | _ => false
  end.

Definition is_get (c : sftp_call) : bool :=
  match c with
  | SftpGet _ _ => true
  | _ => false
  end.

(** The number that the digits of a text spell, the other characters left
    out; a comparator by this number orders the names of one day by their
    time. *)
Definition digits_value (s : string) : Z :=
  fold_left (fun acc a => if Text.is_digit a then (acc * 10 + digit_val a)%Z
                          else acc)
            (list_ascii_of_string s) 0%Z.

Definition compare_by_digits (a b : string) : Z :=
  (digits_value a - digits_value b)%Z.

(** ** Lines ready to be written and read back *)

(** Whether a text starts, and whether it ends, with white space. *)
Definition starts_with_ws (s : string) : bool :=
  match s with
  | EmptyString => false
  | String a _ => Text.is_ws a
  end.

Fixpoint ends_with_ws (s : string) : bool :=
  match s with
  | EmptyString => false
  | String a EmptyString => Text.is_ws a
  | String _ s' => ends_with_ws s'
  end.

(** A line as the parsers leave it: one line, trimmed, not empty. *)
Definition clean_line (l : string) : Prop :=
  one_line l = true /\ Text.trim l = l /\ l ≠ "".

(** ** Proof automation *)

(** Settles the sign test of [Arr.clamp] on a negative index. *)
Ltac clamp_negative k :=
  unfold Arr.clamp; destruct (Z.ltb_spec k 0) as [_|?]; [|lia].

(** Takes the cases of the next write or of the override loop in a run. *)
Ltac run_step sink :=
  match goal with
  | |- context [sink ?e] => destruct (sink e); simpl
  | |- context [apply_override ?w ?l] => destruct (apply_override w l); simpl
  end.

(** Takes the cases of what the remote side does in a download. *)
Ltac download_cases env :=
  unfold downloadYesterdayFile, try_finally, sftp_connect, sftp_list,
    sftp_get, sftp_end, mbind, R_bind, mret, R_ret;
  simpl;
  destruct (connect_ok env); simpl; [|];
  try (destruct (listing env) as [names|]; simpl; [|]);
  repeat match goal with
         | |- context [getYesterdayRemoteFile ?c ?j ?n ?d ?k ?f] =>
             destruct (getYesterdayRemoteFile c j n d k f) as [remotePath|]
                      eqn:?; simpl
         | |- context [get_ok env ?p] => destruct (get_ok env p) eqn:?; simpl
         end.

(** Facts that keep a list a list of one-line texts. *)
Create HintDb one_line_db.

(** * Properties *)

(** ** Array operations *)

Section ArrFacts.
Context {A : Type}.
Implicit Types l : list A.

Lemma slice_last l (k : nat) :
  0 < k -> Arr.slice (- Z.of_nat k) None l = drop (length l - k) l.
Proof.
  intros Hk. unfold Arr.slice. clamp_negative (- Z.of_nat k).
  replace (Z.to_nat (Z.max (Z.of_nat (length l) + - Z.of_nat k) 0))
    with (length l - k) by lia.
  apply take_ge. rewrite length_drop. lia.
Qed.


Lemma splice_last l (k : nat) :
  0 < k -> k <= length l ->
  Arr.splice (- Z.of_nat k) (Z.of_nat k) l
  = (drop (length l - k) l, take (length l - k) l).
Proof.
  intros Hk Hl. unfold Arr.splice. clamp_negative (- Z.of_nat k).
  replace (Z.to_nat (Z.max (Z.of_nat (length l) + - Z.of_nat k) 0))
    with (length l - k) by lia.
  replace (Z.to_nat (Z.min (Z.max (Z.of_nat k) 0)
                           (Z.of_nat (length l - (length l - k)))))
    with k by lia.
  f_equal.
  - apply take_ge. rewrite length_drop. lia.
  - rewrite (drop_ge l) by lia. apply app_nil_r.
Qed.

Lemma get_nat l (i : nat) : Arr.get l (Z.of_nat i) = l !! i.
Proof.
  unfold Arr.get. destruct (Z.ltb_spec (Z.of_nat i) 0); [lia|].
  by rewrite Nat2Z.id.
Qed.

Lemma get_negative l (i : Z) : (i < 0)%Z -> Arr.get l i = None.
Proof.
  intros Hi. unfold Arr.get. by destruct (Z.ltb_spec i 0); [|lia].
Qed.

End ArrFacts.

Section SetAt.
Context {A : Type}.
Implicit Types (l : list (option A)) (v : option A).

Lemma set_at_lookup l (i : nat) v : Arr.set_at l i v !! i = Some v.
Proof.
  unfold Arr.set_at. destruct (Nat.ltb_spec i (length l)) as [H|H].
  - by apply list_lookup_insert_eq.
  - rewrite lookup_app_r by done.
    rewrite lookup_app_r by (rewrite length_replicate; lia).
    rewrite length_replicate. by rewrite Nat.sub_diag.
Qed.

Lemma set_at_elem l (i : nat) v x :
  x ∈ Arr.set_at l i v -> x ∈ l \/ x = None \/ x = v.
Proof.
  unfold Arr.set_at. destruct (Nat.ltb_spec i (length l)) as [H|H].
  - intros (j & Hj)%list_elem_of_lookup.
    destruct (decide (i = j)) as [->|Hij].
    + rewrite list_lookup_insert_eq in Hj by done. right. right. congruence.
    + rewrite list_lookup_insert_ne in Hj by done.
      left. by eapply list_elem_of_lookup_2.
  - rewrite !elem_of_app, elem_of_replicate, list_elem_of_singleton.
    intros [?|[[? _]|?]]; auto.
Qed.

Lemma set_at_nonempty l (i : nat) v : Arr.set_at l i v ≠ [].
Proof.
  intros H. pose proof (set_at_lookup l i v) as Hl. by rewrite H in Hl.
Qed.

End SetAt.

(** The columns of a line after the assignment to the colour column. *)
Lemma render_set_at (cols : list string) (i : nat) (w : option string) :
  default "" <$> Arr.set_at (Some <$> cols) i w
  = if i <? length cols then <[i := default "" w]> cols
    else cols ++ replicate (i - length cols) "" ++ [default "" w].
Proof.
  assert (default "" <$> (Some <$> cols) = cols) as Hid.
  { rewrite <- list_fmap_compose. apply list_fmap_id. }
  unfold Arr.set_at. rewrite length_fmap. destruct (i <? length cols).
  - by rewrite list_fmap_insert, Hid.
  - by rewrite !fmap_app, fmap_replicate, Hid.
Qed.

(** ** Trimming *)

Lemma nonblank_spec (s : string) : Text.nonblank s = true <-> s ≠ "".
Proof.
  unfold Text.nonblank. rewrite negb_true_iff.
  destruct (String.eqb_spec s ""); split; congruence.
Qed.

Lemma trim_end_idem (s : string) :
  Text.trim_end (Text.trim_end s) = Text.trim_end s.
Proof.
  induction s as [|a s IH]; [done|]. simpl.
  destruct (Text.trim_end s) as [|b r] eqn:E.
  - destruct (Text.is_ws a) eqn:Ha; [done|]. simpl. by rewrite Ha.
  - cbn [Text.trim_end]. cbn [Text.trim_end] in IH. by rewrite IH.
Qed.

Lemma trim_start_head (s : string) :
  match Text.trim_start s with
  | EmptyString => True
  | String a _ => Text.is_ws a = false
  end.
Proof.
  induction s as [|a s IH]; [done|]. simpl.
  destruct (Text.is_ws a) eqn:Ha; [done|]. by simpl.
Qed.

Lemma trim_end_head (a : ascii) (s : string) :
  Text.is_ws a = false ->
  exists r, Text.trim_end (String a s) = String a r.
Proof.
  intros Ha. simpl. destruct (Text.trim_end s); rewrite ?Ha; eauto.
Qed.

Lemma trim_idem (s : string) : Text.trim (Text.trim s) = Text.trim s.
Proof.
  unfold Text.trim. pose proof (trim_start_head s) as H.
  destruct (Text.trim_start s) as [|a t]; [done|].
  destruct (trim_end_head a t H) as [r Hr].
  assert (Text.trim_start (Text.trim_end (String a t))
          = Text.trim_end (String a t)) as ->.
  { rewrite Hr. simpl. by rewrite H. }
  apply trim_end_idem.
Qed.

Lemma digit_not_ws (a : ascii) :
  Text.is_digit a = true -> Text.is_ws a = false.
Proof.
  unfold Text.is_digit, Text.is_ws.
  intros [H1%Nat.leb_le H2%Nat.leb_le]%andb_true_iff.
  destruct (Nat.leb_spec 9 (Text.code a)), (Nat.leb_spec (Text.code a) 13),
    (Nat.eqb_spec (Text.code a) 32), (Nat.eqb_spec (Text.code a) 160);
    simpl; try done; lia.
Qed.

Lemma trim_end_digits (s : string) :
  Forall (fun a => Text.is_digit a = true) (list_ascii_of_string s) ->
  Text.trim_end s = s.
Proof.
  induction s as [|a s IH]; [done|]. simpl. intros [Ha Hs]%Forall_cons.
  rewrite (IH Hs), (digit_not_ws a Ha). by destruct s.
Qed.

Lemma trim_digits (s : string) :
  Forall (fun a => Text.is_digit a = true) (list_ascii_of_string s) ->
  Text.trim s = s.
Proof.
  intros H. unfold Text.trim.
  assert (Text.trim_start s = s) as ->; [|by apply trim_end_digits].
  destruct s as [|a s]; [done|]. simpl in *.
  apply Forall_cons in H as [Ha _]. by rewrite (digit_not_ws a Ha).
Qed.

(** A pure-number line is not blank and has only digits. *)
Lemma is_pure_number_spec (s : string) :
  Text.is_pure_number s = true
  <-> s ≠ "" /\ Forall (fun a => Text.is_digit a = true)
                       (list_ascii_of_string s).
Proof.
  unfold Text.is_pure_number. destruct s as [|a s].
  - split; [done|]. by intros [? _].
  - rewrite forallb_forall, Forall_forall.
    setoid_rewrite list_elem_of_In.
    split; [intros H; split; [done|exact H] | intros [_ H]; exact H].
Qed.

(** ** Splitting and joining *)

Lemma append_cons (c : ascii) (s t : string) :
  String c s +:+ t = String c (s +:+ t).
Proof. reflexivity. Qed.

Lemma split_on_cons (sep c : ascii) (s : string) :
  Text.split_on sep (String c s)
  = if Ascii.eqb c sep then "" :: Text.split_on sep s
    else Text.push_front c (Text.split_on sep s).
Proof. reflexivity. Qed.

Lemma split_on_nonempty (sep : ascii) (s : string) :
  Text.split_on sep s ≠ [].
Proof.
  destruct s as [|c s]; [done|]. rewrite split_on_cons.
  destruct (Ascii.eqb c sep); [done|]. by destruct (Text.split_on sep s).
Qed.

Lemma split_on_free (sep : ascii) (a b : string) :
  free_of sep a = true ->
  Text.split_on sep (a +:+ String sep b) = a :: Text.split_on sep b.
Proof.
  induction a as [|c a IH]; intros Ha.
  - change ("" +:+ String sep b) with (String sep b).
    by rewrite split_on_cons, Ascii.eqb_refl.
  - simpl in Ha. apply andb_true_iff in Ha as [Hc%negb_true_iff Ha].
    by rewrite append_cons, split_on_cons, Hc, IH.
Qed.

Lemma split_on_single (sep : ascii) (a : string) :
  free_of sep a = true -> Text.split_on sep a = [a].
Proof.
  induction a as [|c a IH]; intros Ha; [done|].
  simpl in Ha. apply andb_true_iff in Ha as [Hc%negb_true_iff Ha].
  by rewrite split_on_cons, Hc, IH.
Qed.

Lemma split_on_join (sep : ascii) (xs : list string) :
  xs ≠ [] ->
  Forall (fun x => free_of sep x = true) xs ->
  Text.split_on sep (Text.join (String sep "") xs) = xs.
Proof.
  intros Hne Hxs. induction Hxs as [|x xs Hx Hxs IH]; [done|].
  destruct xs as [|x' xs].
  - by apply split_on_single.
  - change (Text.join (String sep "") (x :: x' :: xs))
      with (x +:+ String sep (Text.join (String sep "") (x' :: xs))).
    rewrite split_on_free by done. f_equal. by apply IH.
Qed.

Lemma split_on_pieces_free (sep : ascii) (s : string) :
  Forall (fun x => free_of sep x = true) (Text.split_on sep s).
Proof.
  induction s as [|c s IH]; [by repeat constructor|].
  rewrite split_on_cons. destruct (Ascii.eqb c sep) eqn:Hc.
  - by constructor.
  - destruct IH as [|x xs Hx Hxs]; simpl.
    + repeat constructor. simpl. by rewrite Hc.
    + constructor; [|done]. simpl. by rewrite Hc, Hx.
Qed.

Lemma split_on_app (sep : ascii) (a b : string) :
  Text.split_on sep (a +:+ String sep b)
  = Text.split_on sep a ++ Text.split_on sep b.
Proof.
  induction a as [|c a IH].
  - change ("" +:+ String sep b) with (String sep b).
    by rewrite split_on_cons, Ascii.eqb_refl.
  - rewrite append_cons, !split_on_cons, IH.
    destruct (Ascii.eqb c sep); [done|].
    pose proof (split_on_nonempty sep a).
    by destruct (Text.split_on sep a).
Qed.

Lemma join_cons_cons (sep x y : string) (ys : list string) :
  Text.join sep (x :: y :: ys) = x +:+ sep +:+ Text.join sep (y :: ys).
Proof. reflexivity. Qed.

Lemma join_split_on (sep : ascii) (s : string) :
  Text.join (String sep "") (Text.split_on sep s) = s.
Proof.
  induction s as [|c s IH]; [done|]. rewrite split_on_cons.
  pose proof (split_on_nonempty sep s) as Hne.
  destruct (Ascii.eqb_spec c sep) as [->|Hc];
    destruct (Text.split_on sep s) as [|p ps]; try done.
  - rewrite join_cons_cons, IH. reflexivity.
  - change (Text.push_front c (p :: ps)) with (String c p :: ps).
    destruct ps as [|q qs].
    + change (String c p = String c s). by rewrite <- IH.
    + rewrite join_cons_cons in *. by rewrite append_cons, IH.
Qed.

Lemma split_lines_cons (c : ascii) (s : string) :
  Text.split_lines (String c s)
  = if Ascii.eqb c Text.LF then "" :: Text.split_lines s
    else match s with
         | String b s'' =>
             if Ascii.eqb c Text.CR && Ascii.eqb b Text.LF
             then "" :: Text.split_lines s''
             else Text.push_front c (Text.split_lines s)
         | EmptyString => Text.push_front c (Text.split_lines s)
         end.
Proof. by destruct s. Qed.

(** ** One-line texts *)

Lemma one_line_cons (a : ascii) (s : string) :
  one_line (String a s) = true ->
  Ascii.eqb a Text.LF = false
  /\ match s with
     | EmptyString => Ascii.eqb a Text.CR = false
     | String _ _ => one_line s = true
     end.
Proof.
  simpl. intros [Ha Hs]%andb_true_iff. apply negb_true_iff in Ha.
  split; [done|]. destruct s; [by apply negb_true_iff|done].
Qed.

Lemma one_line_free_of (s : string) :
  one_line s = true -> free_of Text.LF s = true.
Proof.
  induction s as [|a s IH]; [done|]. intros [Ha Hs]%one_line_cons.
  simpl. rewrite Ha. simpl. destruct s; [done|]. by apply IH.
Qed.

Lemma split_lines_one_line (a b : string) :
  one_line a = true ->
  Text.split_lines (a +:+ String Text.LF b) = a :: Text.split_lines b.
Proof.
  induction a as [|c a IH]; intros Ha.
  - change ("" +:+ String Text.LF b) with (String Text.LF b).
    by rewrite split_lines_cons, Ascii.eqb_refl.
  - apply one_line_cons in Ha as [Hc Ha].
    rewrite append_cons, split_lines_cons, Hc.
    destruct a as [|d a].
    + change ("" +:+ String Text.LF b) with (String Text.LF b).
      rewrite Ha, split_lines_cons, Ascii.eqb_refl. reflexivity.
    + specialize (IH Ha). apply one_line_cons in Ha as [Hd _].
      rewrite append_cons in *. by rewrite Hd, andb_false_r, IH.
Qed.

Lemma split_lines_single (a : string) :
  one_line a = true -> Text.split_lines a = [a].
Proof.
  induction a as [|c a IH]; intros Ha.
  - reflexivity.
  - apply one_line_cons in Ha as [Hc Ha].
    rewrite split_lines_cons, Hc.
    destruct a as [|d a]; [done|].
    specialize (IH Ha). apply one_line_cons in Ha as [Hd _].
    by rewrite Hd, andb_false_r, IH.
Qed.

Lemma split_lines_join (ls : list string) :
  ls ≠ [] ->
  one_lines ls ->
  Text.split_lines (Text.join Text.NL ls) = ls.
Proof.
  intros Hne Hls. induction Hls as [|l ls Hl Hls IH]; [done|].
  destruct ls as [|l' ls].
  - by apply split_lines_single.
  - change (Text.join Text.NL (l :: l' :: ls))
      with (l +:+ String Text.LF (Text.join Text.NL (l' :: ls))).
    rewrite split_lines_one_line by done. f_equal. by apply IH.
Qed.

(** A decimal numeral has only digits, so it is one line. *)
Lemma digits_one_line (s : string) :
  Forall (fun a => Text.is_digit a = true) (list_ascii_of_string s) ->
  one_line s = true.
Proof.
  induction s as [|a s IH]; [done|]. simpl. intros [Ha Hs]%Forall_cons.
  unfold Text.is_digit, Text.code in Ha.
  apply andb_true_iff in Ha as [H1%Nat.leb_le H2%Nat.leb_le].
  assert (Ascii.eqb a Text.LF = false) as ->.
  { apply Ascii.eqb_neq. intros ->. vm_compute in H1. lia. }
  assert (Ascii.eqb a Text.CR = false) as ->.
  { apply Ascii.eqb_neq. intros ->. vm_compute in H1. lia. }
  simpl. destruct s; [done|]. by apply IH.
Qed.

Lemma string_of_uint_digits (d : Decimal.uint) :
  Forall (fun a => Text.is_digit a = true)
         (list_ascii_of_string (NilEmpty.string_of_uint d)).
Proof. induction d; simpl; by constructor. Qed.

Lemma toString_digits (n : nat) :
  Forall (fun a => Text.is_digit a = true)
         (list_ascii_of_string (Text.toString n)).
Proof.
  unfold Text.toString, NilZero.string_of_uint.
  destruct (Nat.to_uint n); try apply (string_of_uint_digits (_ _)).
  by repeat constructor.
Qed.

(** The count line reads back as the count. *)
Lemma read_count_toString (n : nat) : read_count (Text.toString n) = Some n.
Proof.
  unfold read_count, Text.toString.
  destruct (Nat.to_uint n) as [| | | | | | | | | |] eqn:E;
    try (rewrite NilZero.usu by done; simpl;
         by rewrite <- E, DecimalNat.Unsigned.of_to).
  simpl. f_equal. by rewrite <- (DecimalNat.Unsigned.of_to n), E.
Qed.

Lemma free_of_trim_start (sep : ascii) (s : string) :
  free_of sep s = true -> free_of sep (Text.trim_start s) = true.
Proof.
  induction s as [|a s IH]; [done|]. simpl.
  intros [Ha Hs]%andb_true_iff. destruct (Text.is_ws a); [by apply IH|].
  simpl. by rewrite Ha, Hs.
Qed.

Lemma one_line_trim_end (s : string) :
  free_of Text.LF s = true -> one_line (Text.trim_end s) = true.
Proof.
  induction s as [|a s IH]; [done|]. simpl.
  intros [Ha%negb_true_iff Hs]%andb_true_iff. specialize (IH Hs).
  destruct (Text.trim_end s) as [|b r].
  - destruct (Text.is_ws a) eqn:Hws; [done|]. simpl. rewrite Ha. simpl.
    apply negb_true_iff, Ascii.eqb_neq. by intros ->.
  - change (one_line (String a (String b r)))
      with (negb (Ascii.eqb a Text.LF) && one_line (String b r)).
    by rewrite Ha, IH.
Qed.

Lemma one_line_trim (s : string) :
  free_of Text.LF s = true -> one_line (Text.trim s) = true.
Proof. intros H. by apply one_line_trim_end, free_of_trim_start. Qed.

Lemma one_line_before_comma (x rest : string) :
  one_line (x +:+ String Text.COMMA rest)
  = free_of Text.LF x && one_line rest.
Proof.
  induction x as [|a x IH].
  - by destruct rest.
  - rewrite append_cons.
    change (free_of Text.LF (String a x))
      with (negb (Ascii.eqb a Text.LF) && free_of Text.LF x).
    rewrite <- andb_assoc, <- IH. by destruct x.
Qed.

Lemma one_line_join (xs : list string) :
  one_line (Text.join "," xs) = cols_one_line xs.
Proof.
  induction xs as [|x xs IH]; [done|]. destruct xs as [|y ys]; [done|].
  rewrite join_cons_cons.
  change (x +:+ "," +:+ Text.join "," (y :: ys))
    with (x +:+ String Text.COMMA (Text.join "," (y :: ys))).
  rewrite one_line_before_comma, IH. reflexivity.
Qed.

Lemma cols_of_one_line (line : string) :
  cols_one_line (cols_of line) = one_line line.
Proof.
  rewrite <- one_line_join. unfold cols_of.
  change "," with (String Text.COMMA ""). by rewrite join_split_on.
Qed.

Lemma cols_one_line_cons (x : string) (xs : list string) :
  cols_one_line (x :: xs) = true ->
  free_of Text.LF x = true /\ cols_one_line xs = true.
Proof.
  destruct xs as [|y ys].
  - intros H. split; [by apply one_line_free_of|done].
  - intros H. change (free_of Text.LF x && cols_one_line (y :: ys) = true) in H.
    by apply andb_true_iff in H.
Qed.

Lemma cols_one_line_all (xs : list string) :
  cols_one_line xs = true -> Forall (fun x => free_of Text.LF x = true) xs.
Proof.
  induction xs as [|x xs IH]; [by constructor|].
  intros [Hx Hxs]%cols_one_line_cons. constructor; auto.
Qed.

Lemma cols_one_line_app (l m : list string) :
  Forall (fun x => free_of Text.LF x = true) l ->
  m ≠ [] -> cols_one_line m = true -> cols_one_line (l ++ m) = true.
Proof.
  intros Hl Hne Hm. induction Hl as [|x l Hx Hl IH]; [done|].
  change ((x :: l) ++ m) with (x :: (l ++ m)).
  destruct (l ++ m) as [|y ys] eqn:E.
  - by destruct l, m.
  - change (free_of Text.LF x && cols_one_line (y :: ys) = true).
    by rewrite Hx, IH.
Qed.

Lemma cols_one_line_insert (l : list string) (i : nat) (x : string) :
  cols_one_line l = true -> one_line x = true ->
  cols_one_line (<[i:=x]> l) = true.
Proof.
  intros Hl Hx. revert i. induction l as [|y l IH]; intros i; [done|].
  pose proof Hl as [Hy Hl']%cols_one_line_cons.
  destruct i as [|i].
  - change (<[0:=x]> (y :: l)) with (x :: l). destruct l as [|z l]; [done|].
    change (free_of Text.LF x && cols_one_line (z :: l) = true).
    by rewrite (one_line_free_of x Hx), Hl'.
  - change (<[S i:=x]> (y :: l)) with (y :: <[i:=x]> l).
    destruct l as [|z l]; [exact Hl|].
    specialize (IH Hl' i).
    destruct (<[i:=x]> (z :: l)) as [|z' l'] eqn:E; [by destruct i|].
    change (free_of Text.LF y && cols_one_line (z' :: l') = true).
    by rewrite Hy, IH.
Qed.

(** ** Lines of a text with a line break in it *)

Lemma push_front_up_to_cr (c : ascii) (xs ys : list string) :
  Forall2 up_to_cr xs ys ->
  Forall2 up_to_cr (Text.push_front c xs) (Text.push_front c ys).
Proof.
  intros [|x y xs' ys' Hxy H]; simpl.
  - repeat constructor.
  - constructor; [|done]. destruct Hxy as [->| ->]; [by left|by right].
Qed.

Lemma split_lines_split_on (s : string) :
  Forall2 up_to_cr (Text.split_lines s) (Text.split_on Text.LF s).
Proof.
  enough (Forall2 up_to_cr (Text.split_lines s) (Text.split_on Text.LF s)
          /\ forall c, Forall2 up_to_cr (Text.split_lines (String c s))
                                        (Text.split_on Text.LF (String c s)))
    as [H _] by done.
  induction s as [|d s [IH1 IH2]].
  - split; [by repeat constructor; left|]. intros c.
    rewrite split_lines_cons, split_on_cons.
    destruct (Ascii.eqb c Text.LF); repeat constructor; by left.
  - split; [apply IH2|]. intros c.
    rewrite split_lines_cons, (split_on_cons _ c).
    destruct (Ascii.eqb c Text.LF) eqn:Hc.
    + constructor; [by left|apply IH2].
    + destruct (Ascii.eqb c Text.CR && Ascii.eqb d Text.LF) eqn:Hcd.
      * apply andb_true_iff in Hcd as [->%Ascii.eqb_eq Hd].
        rewrite split_on_cons, Hd. simpl. constructor; [by right|done].
      * apply push_front_up_to_cr, IH2.
Qed.

Lemma trim_start_snoc_cr (x : string) :
  Text.trim_start (x +:+ String Text.CR "")
  = match Text.trim_start x with
    | EmptyString => EmptyString
    | t => t +:+ String Text.CR ""
    end.
Proof.
  induction x as [|a x IH]; [done|].
  rewrite append_cons. simpl. by destruct (Text.is_ws a).
Qed.

Lemma trim_end_snoc_cr (t : string) :
  Text.trim_end (t +:+ String Text.CR "") = Text.trim_end t.
Proof.
  induction t as [|a t IH]; [done|].
  rewrite append_cons. simpl. by rewrite IH.
Qed.

Lemma trim_up_to_cr (x y : string) : up_to_cr x y -> Text.trim x = Text.trim y.
Proof.
  intros [->| ->]; [done|]. unfold Text.trim. rewrite trim_start_snoc_cr.
  destruct (Text.trim_start x); [done|]. by rewrite trim_end_snoc_cr.
Qed.

Lemma trimmed_lines_split_on (s : string) :
  Text.trim <$> Text.split_lines s = Text.trim <$> Text.split_on Text.LF s.
Proof.
  induction (split_lines_split_on s) as [|x y xs ys Hxy _ IH]; [done|].
  by rewrite !fmap_cons, IH, (trim_up_to_cr x y).
Qed.

(** The trimmed lines of two texts with a line break between them. *)
Lemma trimmed_lines_app (a b : string) :
  Text.trim <$> Text.split_lines (a +:+ String Text.LF b)
  = (Text.trim <$> Text.split_lines a) ++ (Text.trim <$> Text.split_lines b).
Proof. by rewrite !trimmed_lines_split_on, split_on_app, fmap_app. Qed.

(** ** The line parsers *)

Lemma snapshot_lines_elem (text l : string) :
  l ∈ snapshot_lines text
  <-> l ∈ Text.trim <$> Text.split_lines text /\ l ≠ "".
Proof.
  unfold snapshot_lines. rewrite list_elem_of_filter.
  rewrite Is_true_true, nonblank_spec. tauto.
Qed.

Lemma parseCsvRecords_elem (text l : string) :
  l ∈ parseCsvRecords text
  <-> l ∈ Text.trim <$> Text.split_lines text
      /\ l ≠ "" /\ Text.is_pure_number l = false.
Proof.
  unfold parseCsvRecords. rewrite list_elem_of_filter.
  rewrite Is_true_true, andb_true_iff, negb_true_iff, nonblank_spec. tauto.
Qed.

Lemma trimmed_lines_fixed (text l : string) :
  l ∈ Text.trim <$> Text.split_lines text -> Text.trim l = l.
Proof.
  intros (x & -> & _)%list_elem_of_fmap. apply trim_idem.
Qed.

Lemma parseCsvRecords_app (a b : string) :
  parseCsvRecords (a +:+ String Text.LF b)
  = parseCsvRecords a ++ parseCsvRecords b.
Proof. unfold parseCsvRecords. by rewrite trimmed_lines_app, filter_app. Qed.

Lemma snapshot_lines_app (a b : string) :
  snapshot_lines (a +:+ String Text.LF b)
  = snapshot_lines a ++ snapshot_lines b.
Proof. unfold snapshot_lines. by rewrite trimmed_lines_app, filter_app. Qed.

(** A text that is one pure number: the parser of the new batch drops it,
    the reader of the snapshot keeps it. *)
Lemma pure_number_line (d : string) :
  Text.is_pure_number d = true ->
  parseCsvRecords d = [] /\ snapshot_lines d = [d].
Proof.
  intros Hd. pose proof Hd as [Hne Hdig]%is_pure_number_spec.
  unfold parseCsvRecords, snapshot_lines.
  rewrite (split_lines_single d) by by apply digits_one_line.
  rewrite list_fmap_singleton, (trim_digits d Hdig). split.
  - apply (filter_singleton_False _ d []). rewrite Hd, andb_false_r.
    by intros [].
  - apply (filter_singleton_True _ d []). by apply Is_true_true, nonblank_spec.
Qed.

Lemma trimmed_lines_one_line (text : string) :
  one_lines (Text.trim <$> Text.split_lines text).
Proof.
  rewrite trimmed_lines_split_on. apply Forall_fmap.
  eapply Forall_impl; [apply (split_on_pieces_free Text.LF)|].
  intros x Hx. by apply one_line_trim.
Qed.

Lemma Forall_filter_keep {A : Type} (P Q : A -> Prop)
    `{!forall x, Decision (Q x)} (l : list A) :
  Forall P l -> Forall P (filter Q l).
Proof.
  rewrite !Forall_forall. intros Hl x [_ Hx]%list_elem_of_filter.
  by apply Hl.
Qed.

#[local] Hint Resolve Forall_take Forall_drop Forall_filter_keep
  trimmed_lines_one_line : one_line_db.

Lemma parseCsvRecords_one_line (today : string) :
  one_lines (parseCsvRecords today).
Proof. unfold parseCsvRecords. auto with one_line_db. Qed.

Lemma take_defleet_spec (old : list string) :
  take_defleet old
  = if 10 <=? length old
    then (drop (length old - 10) old, take (length old - 10) old)
    else ([], old).
Proof.
  unfold take_defleet. destruct (Nat.leb_spec 10 (length old)); [|done].
  apply (splice_last old 10); lia.
Qed.



(** ** Projections *)

(** The full schema gives the empty string for a column that the line does
    not have. *)
Lemma project_error_short (line key : string) (idx : nat) :
  (key, idx) ∈ errorColumnMapping ->
  length (cols_of line) <= idx ->
  (key, "") ∈ project_error line.
Proof.
  intros Hin Hlen. unfold project_error.
  apply list_elem_of_fmap. exists (key, idx). split; [|done].
  by rewrite lookup_ge_None_2.
Qed.

Lemma project_error_keys (line : string) :
  (project_error line).*1 = errorColumnMapping.*1.
Proof.
  unfold project_error. rewrite <- list_fmap_compose.
  apply list_fmap_ext. by intros i [key idx] _.
Qed.

(** The vehicle schema gives [undefined] there. *)
Lemma project_vehicle_short (line : string) :
  length (cols_of line) <= defleetIdx.license_plate_number ->
  project_vehicle line = Vehicle None None None None None None None.
Proof.
  intros H. unfold project_vehicle.
  rewrite !lookup_ge_None_2;
    [done|unfold defleetIdx.license_plate_number in H..];
    (unfold defleetIdx.vin, defleetIdx.color, defleetIdx.model,
       defleetIdx.make, defleetIdx.year, defleetIdx.license_plate_state,
       defleetIdx.license_plate_number; lia).
Qed.

Lemma word_at_spec (words : list string) (i : nat) :
  words ≠ [] ->
  word_at words i = words !! (i mod length words)
  /\ is_Some (words !! (i mod length words)).
Proof.
  intros Hne. unfold word_at. destruct words as [|w ws]; [done|].
  split; [done|]. apply lookup_lt_is_Some_2.
  apply Nat.mod_upper_bound. simpl. lia.
Qed.

(** After the override, the colour column of the line reads as the word,
    when the word has no comma in it. *)
Lemma recolor_color (words : list string) (i : nat) (line w : string) :
  word_at words i = Some w ->
  free_of Text.COMMA w = true ->
  cols_of (recolor words i line) !! defleetIdx.color = Some w.
Proof.
  intros Hw Hfree. unfold recolor, join_cols, cols_of. rewrite Hw.
  change "," with (String Text.COMMA "").
  rewrite split_on_join.
  - by rewrite list_lookup_fmap, set_at_lookup.
  - intros H%fmap_nil_inv. by eapply set_at_nonempty.
  - apply Forall_forall. intros x (o & -> & Ho)%list_elem_of_fmap.
    apply set_at_elem in Ho as [Ho|[->| ->]]; [|done..].
    apply list_elem_of_fmap in Ho as (c & -> & Hc). simpl.
    pose proof (split_on_pieces_free Text.COMMA line) as Hp.
    rewrite Forall_forall in Hp. by apply Hp.
Qed.

Lemma recolor_one_line (words : list string) (i : nat) (line : string) :
  one_lines words ->
  one_line line = true -> one_line (recolor words i line) = true.
Proof.
  intros Hwords Hline. unfold recolor, join_cols.
  rewrite one_line_join, render_set_at.
  assert (one_line (default "" (word_at words i)) = true) as Hw.
  { unfold word_at. destruct (length words); [done|].
    destruct (words !! _) as [w|] eqn:E; [|done]. simpl.
    rewrite Forall_forall in Hwords.
    by eapply Hwords, list_elem_of_lookup_2. }
  rewrite <- cols_of_one_line in Hline.
  destruct (defleetIdx.color <? length (cols_of line)).
  - by apply cols_one_line_insert.
  - apply cols_one_line_app; [by apply cols_one_line_all| |].
    + by destruct (replicate _ _).
    + apply cols_one_line_app; [by apply Forall_replicate|done|done].
Qed.

(** ** The update batch and the override loop *)

Lemma updateBatch_spec (l : list string) :
  updateBatch l
  = if 10 <=? length l then drop (length l - 10) l
    else drop (length l - (10 - length l)) l.
Proof.
  unfold updateBatch, updateStart.
  destruct (Nat.leb_spec 10 (length l)) as [H|H].
  - unfold Arr.slice, Arr.clamp.
    destruct (Z.ltb_spec (Z.of_nat (length l) - 10) 0); [lia|].
    replace (Z.to_nat (Z.min (Z.of_nat (length l) - 10)
                             (Z.of_nat (length l))))
      with (length l - 10) by lia.
    apply take_ge. rewrite length_drop. lia.
  - replace (Z.of_nat (length l) - 10)%Z
      with (- Z.of_nat (10 - length l))%Z by lia.
    apply slice_last. lia.
Qed.

Lemma updateBatch_length (l : list string) :
  length (updateBatch l)
  = if 10 <=? length l then 10 else Nat.min (length l) (10 - length l).
Proof.
  rewrite updateBatch_spec.
  destruct (Nat.leb_spec 10 (length l)); rewrite length_drop; lia.
Qed.

Lemma updateData_length (words l : list string) :
  length (updateData words l) = length (updateBatch l).
Proof. unfold updateData. apply length_imap. Qed.

Lemma updateData_empty (words l : list string) :
  (length (updateData words l) =? 0) = (length l =? 0).
Proof.
  rewrite updateData_length, updateBatch_length.
  destruct (Nat.leb_spec 10 (length l)).
  - destruct (Nat.eqb_spec (length l) 0); [lia|done].
  - destruct (Nat.eqb_spec (length l) 0),
             (Nat.eqb_spec (Nat.min (length l) (10 - length l)) 0);
      lia || done.
Qed.

Lemma override_from_in_range (words : list string) (s todo : nat) :
  forall (i : nat) (l : list string),
    s + i + todo <= length l ->
    override_from words (Z.of_nat s) i todo l
    = Done (take (s + i) l
            ++ imap (fun k => recolor words (i + k))
                    (take todo (drop (s + i) l))
            ++ drop (s + i + todo) l).
Proof.
  induction todo as [|todo IH]; intros i l Hlen; simpl.
  - rewrite Nat.add_0_r. simpl. by rewrite take_drop.
  - rewrite <- Nat2Z.inj_add, get_nat, Nat2Z.id.
    destruct (lookup_lt_is_Some_2 l (s + i)) as [line Hline]; [lia|].
    rewrite Hline, IH by (rewrite length_insert; lia). f_equal.
    replace (s + S i) with (S (s + i)) by lia.
    rewrite (take_S_r _ _ (recolor words i line))
      by (apply list_lookup_insert_eq; lia).
    rewrite take_insert_ge, !drop_insert_lt by lia.
    rewrite (drop_S l line (s + i)) by done.
    cbn [take]. rewrite imap_cons, Nat.add_0_r, <- app_assoc.
    cbn [app]. do 3 f_equal.
    + apply imap_ext. intros k x _. simpl. f_equal. lia.
    + f_equal. lia.
Qed.

(** The loop succeeds on a tail of ten lines or more: the last ten lines
    are rewritten, the others stay. *)
Lemma apply_override_long (words l : list string) :
  10 <= length l ->
  apply_override words l
  = Done (take (length l - 10) l
          ++ imap (recolor words) (drop (length l - 10) l)).
Proof.
  intros H. unfold apply_override.
  rewrite updateBatch_length. destruct (Nat.leb_spec 10 (length l)); [|lia].
  unfold updateStart.
  replace (Z.of_nat (length l) - 10)%Z with (Z.of_nat (length l - 10)) by lia.
  rewrite override_from_in_range by lia. f_equal.
  rewrite !Nat.add_0_r.
  rewrite (take_ge (drop _ _)) by (rewrite length_drop; lia).
  rewrite (drop_ge l (length l - 10 + 10)) by lia. by rewrite app_nil_r.
Qed.

Lemma apply_override_nil (words : list string) :
  apply_override words [] = Done [].
Proof. reflexivity. Qed.

(** The loop throws on a tail of one to nine lines: its first index is
    negative. *)
Lemma apply_override_short (words l : list string) :
  1 <= length l <= 9 -> apply_override words l = Thrown TypeError.
Proof.
  intros H. unfold apply_override.
  destruct (length (updateBatch l)) as [|n] eqn:E.
  - rewrite updateBatch_length in E.
    destruct (Nat.leb_spec 10 (length l)); lia.
  - simpl. rewrite get_negative; [done|]. unfold updateStart. lia.
Qed.

(** The loop returns exactly on the empty tail and on tails of ten lines
    or more. *)
Lemma apply_override_total (words l : list string) :
  (exists l', apply_override words l = Done l')
  <-> length l = 0 \/ 10 <= length l.
Proof.
  split.
  - intros [l' Hl'].
    destruct (decide (1 <= length l <= 9)) as [Hs|Hs]; [|lia].
    rewrite apply_override_short in Hl' by done. discriminate.
  - intros [H0|H10].
    + destruct l; [|done]. eauto using apply_override_nil.
    + eauto using apply_override_long.
Qed.

(** The tail that a completed override loop leaves. *)
Lemma apply_override_done (words l mutated : list string) :
  apply_override words l = Done mutated ->
  mutated
  = if 10 <=? length l
    then take (length l - 10) l ++ imap (recolor words) (drop (length l - 10) l)
    else [].
Proof.
  intros H. destruct (Nat.leb_spec 10 (length l)) as [Hl|Hl].
  - rewrite apply_override_long in H by done. by injection H.
  - destruct (decide (length l = 0)) as [H0|H0].
    + destruct l; [|done]. by injection H.
    + rewrite apply_override_short in H by lia. discriminate.
Qed.

(** The lines that a completed override loop leaves are one-line texts,
    when the lines it started from and the words are. *)
Lemma mutated_one_line (words working mutated : list string) :
  one_lines words ->
  one_lines working ->
  apply_override words working = Done mutated ->
  one_lines mutated.
Proof.
  intros Hwords Hw Hdone.
  rewrite (apply_override_done _ _ _ Hdone).
  destruct (10 <=? length _); [|by constructor].
  apply Forall_app. split; [by apply Forall_take|].
  apply Forall_forall. intros l (j & Hj)%list_elem_of_lookup.
  rewrite list_lookup_imap in Hj.
  destruct (drop _ _ !! j) as [x|] eqn:Ex; [|done]. injection Hj as <-.
  apply recolor_one_line; [done|].
  rewrite Forall_forall in Hw. apply Hw.
  eapply list_elem_of_lookup_2. rewrite lookup_drop in Ex. exact Ex.
Qed.

(** ** The colour of the update batch *)

(** The record at position [i] of the update batch is written with the
    colour [words[i mod words.length]].  When the word has no comma and
    the override loop has left the mutated tail, the line of that record in
    the mutated tail, which goes into the merged snapshot, has the same
    word in its colour column.  With the words of the source every record
    of the update batch has the colour [delta]. *)
Lemma update_colour_positional (words tail : list string) (i : nat)
    (line : string) :
  words ≠ [] ->
  updateBatch tail !! i = Some line ->
  exists w,
    words !! (i mod length words) = Some w
    /\ (exists r, updateData words tail !! i = Some r /\ color r = Some w)
    /\ (forall r, r ∈ updateData commonWords tail -> color r = Some "delta")
    /\ (free_of Text.COMMA w = true ->
        forall mutated,
          apply_override words tail = Done mutated ->
          exists line',
            mutated !! Z.to_nat (updateStart tail + Z.of_nat i) = Some line'
            /\ cols_of line' !! defleetIdx.color = Some w).
Proof.
  intros Hne Hline.
  destruct (word_at_spec words i Hne) as [Hw [w Hsome]].
  exists w. split_and!; [done| | |].
  - exists (project_update words i line). split.
    + unfold updateData. by rewrite list_lookup_imap, Hline.
    + simpl. by rewrite Hw.
  - intros r (j & Hj)%list_elem_of_lookup. unfold updateData in Hj.
    rewrite list_lookup_imap in Hj.
    destruct (updateBatch tail !! j); [|done]. by injection Hj as <-.
  - intros Hfree mutated Hdone.
    pose proof (apply_override_done _ _ _ Hdone) as Hm.
    rewrite updateBatch_spec in Hline.
    destruct (Nat.leb_spec 10 (length tail)) as [Hlen|Hlen].
    + exists (recolor words i line). split.
      * subst mutated. unfold updateStart.
        replace (Z.to_nat (Z.of_nat (length tail) - 10 + Z.of_nat i))
          with (length (take (length tail - 10) tail) + i)
          by (rewrite length_take; lia).
        by rewrite lookup_app_r, Nat.add_sub', list_lookup_imap, Hline by lia.
      * apply recolor_color; [congruence|done].
    + destruct (decide (length tail = 0)) as [H0|H0].
      * destruct tail; [done|simpl in H0; lia].
      * rewrite apply_override_short in Hdone by lia. discriminate.
Qed.

(** At position 4 of a tail of 12 lines and three words: the word is
    [words[4 mod 3]], and line 2 + 4 of the mutated tail carries it. *)
Example update_colour_positional_at_4 :
  let row (n : nat) :=
    "Alamo,ODY-1,ADN" +:+ Text.toString n +:+ ",TX,2024,Kia,Rio,red,VIN,G" in
  let tail := row <$> seq 0 12 in
  let words := ["delta"; "echo"; "kilo"] in
  (exists r, updateData words tail !! 4 = Some r /\ color r = Some "echo")
  /\ exists mutated line',
       apply_override words tail = Done mutated
       /\ mutated !! 6 = Some line'
       /\ cols_of line' !! defleetIdx.color = Some "echo".
Proof.
  intros row tail words.
  destruct (update_colour_positional words tail 4 (row 6))
    as (w & Hw & Hr & _ & Hm).
  - discriminate.
  - vm_compute. reflexivity.
  - assert (w = "echo") as -> by (vm_compute in Hw; congruence).
    split; [exact Hr|].
    destruct (apply_override words tail) as [mutated|f] eqn:E;
      [|vm_compute in E; discriminate].
    destruct (Hm eq_refl mutated eq_refl) as (line' & H1 & H2).
    exists mutated, line'. split_and!; [done|exact H1|exact H2].
Qed.

(** ** Running the pipeline *)

Lemma write_all_accept (plan log : list emission) :
  write_all accept_all plan log = (log ++ plan, Done tt).
Proof.
  revert log. induction plan as [|e plan IH]; intros log; simpl.
  - by rewrite app_nil_r.
  - by rewrite IH, <- app_assoc.
Qed.

(** What [write_all] leaves in the log: the whole plan when it is done, a
    strict prefix of it when a write was refused. *)
Lemma write_all_log (sink : emission -> bool) (plan log : list emission) :
  match write_all sink plan log with
  | (log', Done _) => log' = log ++ plan
  | (log', Thrown e) =>
      e = IOFailure
      /\ exists k, k < length plan /\ log' = log ++ take k plan
  end.
Proof.
  revert log. induction plan as [|e plan IH]; intros log; simpl.
  - by rewrite app_nil_r.
  - destruct (sink e).
    + specialize (IH (log ++ [e])).
      destruct (write_all sink plan (log ++ [e])) as [log' [[]|f]].
      * by rewrite IH, <- app_assoc.
      * destruct IH as (-> & k & Hk & ->). split; [done|].
        exists (S k). split; [lia|]. by rewrite <- app_assoc.
    + split; [done|]. exists 0. split; [lia|]. by rewrite app_nil_r.
Qed.

Lemma write_all_content (sink1 sink2 : emission -> bool) :
  (forall e1 e2, content e1 = content e2 -> sink1 e1 = sink2 e2) ->
  forall plan1 plan2 log1 log2,
    content <$> plan1 = content <$> plan2 ->
    content <$> log1 = content <$> log2 ->
    content <$> (write_all sink1 plan1 log1).1
    = content <$> (write_all sink2 plan2 log2).1
    /\ (write_all sink1 plan1 log1).2 = (write_all sink2 plan2 log2).2.
Proof.
  intros Hsink. induction plan1 as [|e1 plan1 IH];
    intros [|e2 plan2] log1 log2 Hplan Hlog; try done.
  simpl in Hplan. injection Hplan as He Hplan. simpl.
  rewrite (Hsink e1 e2 He). destruct (sink2 e2); [|done].
  apply IH; [done|]. rewrite !fmap_app. simpl. by rewrite Hlog, He.
Qed.

(** A run writes the early outputs, runs the override loop, and writes the
    late outputs; it stops at the first write that the sink refuses and at
    a throw of the loop. *)
Lemma reconcile_run (sink : emission -> bool) (words : list string)
    (ts fileName : string) (old new : list string) (log : list emission) :
  reconcile words ts fileName old new sink log
  = match write_all sink (early_outputs words ts old) log with
    | (log', Done _) =>
        match apply_override words (take_defleet old).2 with
        | Done mutated =>
            write_all sink
              (late_outputs words ts fileName (take_defleet old).2 mutated new)
              log'
        | Thrown e => (log', Thrown e)
        end
    | (log', Thrown e) => (log', Thrown e)
    end.
Proof.
  unfold reconcile, early_outputs.
  destruct (take_defleet old) as [defleetBatch working]. simpl.
  rewrite length_fmap.
  unfold mbind, M_bind, when, saveJson, emit, lift, mret, M_ret.
  destruct (length defleetBatch =? 0), (length (updateData words working) =? 0);
    simpl; repeat run_step sink; reflexivity.
Qed.

Lemma reconcile_accept_all (words : list string) (ts fileName : string)
    (old new : list string) :
  exec accept_all (reconcile words ts fileName old new)
  = match apply_override words (take_defleet old).2 with
    | Done mutated =>
        (early_outputs words ts old
         ++ late_outputs words ts fileName (take_defleet old).2 mutated new,
         Done tt)
    | Thrown e => (early_outputs words ts old, Thrown e)
    end.
Proof.
  unfold exec. rewrite reconcile_run, write_all_accept. cbv beta iota.
  destruct (apply_override words (take_defleet old).2); [|done].
  by rewrite write_all_accept.
Qed.

Lemma early_outputs_destinations (words : list string) (ts : string)
    (old : list string) :
  destinations (early_outputs words ts old)
  = (if 10 <=? length old then [defleetOutputDir] else [])
    ++ (if length (take_defleet old).2 =? 0 then [] else [updateOutputDir]).
Proof.
  unfold early_outputs. rewrite take_defleet_spec.
  destruct (Nat.leb_spec 10 (length old)) as [H|H]; cbn [snd];
    rewrite updateData_empty.
  - rewrite length_drop.
    replace (length old - (length old - 10)) with 10 by lia. simpl.
    by destruct (length (take (length old - 10) old) =? 0).
  - simpl. by destruct (length old =? 0).
Qed.

Lemma early_outputs_not_merged (words : list string) (ts : string)
    (old : list string) :
  existsb is_merged (early_outputs words ts old) = false.
Proof.
  unfold early_outputs. destruct (take_defleet old) as [d w].
  by destruct (length d =? 0), (length (updateData words w) =? 0).
Qed.

Lemma early_outputs_content (words : list string) (ts1 ts2 : string)
    (old : list string) :
  content <$> early_outputs words ts1 old
  = content <$> early_outputs words ts2 old.
Proof.
  unfold early_outputs. destruct (take_defleet old) as [d w].
  by destruct (length d =? 0), (length (updateData words w) =? 0).
Qed.


(** ** The entry point *)

Lemma accepted_fmt_spec (fmt : string) :
  accepted_fmt fmt = true <-> fmt = "csv" \/ fmt = "txt".
Proof.
  unfold accepted_fmt. rewrite orb_true_iff.
  by destruct (String.eqb_spec fmt "csv"), (String.eqb_spec fmt "txt");
    split; intros [?|?]; auto.
Qed.

(** [parseInt] gives [NaN] exactly when no digit follows the white space
    and the sign. *)
Lemma parseInt10_NaN (raw : option string) :
  parseInt10 raw = None
  <-> match raw with
      | None => True
      | Some s => digits_prefix (split_sign (Text.trim_start s)).2 = []
      end.
Proof.
  destruct raw as [s|]; [|done]. unfold parseInt10.
  destruct (split_sign (Text.trim_start s)) as [sign body]. simpl.
  by destruct (digits_prefix body).
Qed.

(** ** The end-to-end scenario *)

(** A snapshot of a count line, 22 records and 2 error rows, and a new
    batch of 12 records: the defleet batch is the last 10 of the 22, the
    update batch the 10 before them, the error records the last 2 new
    ones, the infleet records the other 10, and the count line of the
    merged snapshot is (22 - 10) + 12 = 24. *)
Example end_to_end_scenario :
  let row (tag : string) (n : nat) :=
    "Alamo,ODY-1," +:+ tag +:+ Text.toString n
    +:+ ",TX,2024,Kia,Rio,red,VIN,G" in
  let yest :=
    Text.join Text.NL ("24" :: (row "OLD" <$> seq 0 22) ++ ["e1"; "e2"]) in
  let today := Text.join Text.NL (row "NEW" <$> seq 0 12) in
  let old := load_yesterday (Some yest) in
  let working := (take_defleet old).2 in
  old = row "OLD" <$> seq 0 22
  /\ (take_defleet old).1 = row "OLD" <$> seq 12 10
  /\ updateBatch working = row "OLD" <$> seq 2 10
  /\ length (errorRecords (parseCsvRecords today)) = 2
  /\ length (infleetRecords (parseCsvRecords today)) = 10
  /\ (let run :=
        exec accept_all (generateAndMerge "ts" "csv" today (Some yest)) in
      run.2 = Done tt
      /\ destinations run.1 = all_destinations
      /\ exists mutated,
           apply_override commonWords working = Done mutated
           /\ last run.1
              = Some (WrittenFile mergedOutputDir "em-fleet-ts.csv"
                                  (merge_csv mutated (parseCsvRecords today)))
           /\ head (Text.split_lines
                      (merge_csv mutated (parseCsvRecords today)))
              = Some "24").
Proof.
  vm_compute. split_and!; try reflexivity.
  eexists. split_and!; reflexivity.
Qed.

(** * The claims *)

(** C1 (the code departs from the claim).  The claim says that a working
    tail of fewer than 10 records is taken whole as the update batch and
    that the override completes.  On a tail of one record the batch is the
    whole tail, but the override loop starts at index -9 and throws after
    the update set was written; on a tail of six records the batch is only
    the last four, and the loop throws as well. *)
Theorem short_tail_update_throws :
  let row := "Alamo,ODY-ADN0001,ADN0001,TX,2024,Kia,Rio,red,VIN1" in
  let yest := Text.join Text.NL ["3"; row; "e1"; "e2"] in
  load_yesterday (Some yest) = [row]
  /\ updateBatch [row] = [row]
  /\ apply_override commonWords [row] = Thrown TypeError
  /\ exec accept_all (generateAndMerge "ts" "csv" "" (Some yest))
     = ([SavedJson updateOutputDir "update" "ts"
           (Vehicles [Vehicle (Some "ADN0001") (Some "TX") (Some "2024")
                              (Some "Kia") (Some "Rio") (Some "delta")
                              (Some "VIN1")])],
        Thrown TypeError)
  /\ updateBatch ["1"; "2"; "3"; "4"; "5"; "6"] = ["3"; "4"; "5"; "6"]
  /\ apply_override commonWords ["1"; "2"; "3"; "4"; "5"; "6"]
     = Thrown TypeError.
Proof. vm_compute. repeat split. Qed.

(** C2 (counterexample).  With empty inputs the run completes and writes
    five outputs: the defleet and update sets are skipped, so neither all
    seven outputs nor none were produced.  And when the write of the fleet
    set is refused, the error and infleet sets stay written. *)
Lemma empty_run_skips_outputs :
  exec accept_all (generateAndMerge "ts" "csv" "" None)
  = ([SavedJson errorOutputDir "error_records" "ts" (ErrorRows []);
      SavedJson infleetOutputDir "infleet_records" "ts" (Vehicles []);
      SavedJson fleetOutputDir "fleet_records" "ts" (Plates []);
      SavedJson historyOutputDir "history_records" "ts" (Vehicles []);
      WrittenFile mergedOutputDir "em-fleet-ts.csv" "0"],
     Done tt)
  /\ ~ all_or_nothing (exec accept_all (generateAndMerge "ts" "csv" "" None)).1
  /\ exec (refuse_dir fleetOutputDir) (generateAndMerge "ts" "csv" "" None)
     = ([SavedJson errorOutputDir "error_records" "ts" (ErrorRows []);
         SavedJson infleetOutputDir "infleet_records" "ts" (Vehicles [])],
        Thrown IOFailure)
  /\ ~ all_or_nothing
        (exec (refuse_dir fleetOutputDir)
              (generateAndMerge "ts" "csv" "" None)).1.
Proof.
  split_and!; try by vm_compute.
  - intros [H|H]; vm_compute in H; discriminate.
  - intros [H|H]; vm_compute in H; discriminate.
Qed.

(** C2 (amended).  A run that completes has written, in this order: the
    defleet set only when the cleaned snapshot had at least 10 records, the
    update set only when the working tail is not empty, then the error,
    infleet, fleet and history sets, empty or not, and last the merged
    snapshot.  A run that fails has not written the merged snapshot; when
    it fails on a write, what it has written is an initial part of that
    sequence. *)
Theorem outputs_of_a_run (sink : emission -> bool) (words : list string)
    (ts fileName : string) (old new : list string) :
  let expected :=
    (if 10 <=? length old then [defleetOutputDir] else [])
    ++ (if length (take_defleet old).2 =? 0 then [] else [updateOutputDir])
    ++ [ errorOutputDir; infleetOutputDir; fleetOutputDir;
         historyOutputDir; mergedOutputDir ] in
  match exec sink (reconcile words ts fileName old new) with
  | (log, Done _) => destinations log = expected
  | (log, Thrown IOFailure) =>
      destinations log `prefix_of` expected
      /\ existsb is_merged log = false
  | (log, Thrown TypeError) => existsb is_merged log = false
  end.
Proof.
  intros expected. unfold exec. rewrite reconcile_run.
  assert (expected
          = destinations (early_outputs words ts old)
            ++ [ errorOutputDir; infleetOutputDir; fleetOutputDir;
                 historyOutputDir; mergedOutputDir ]) as Hexp.
  { unfold expected. by rewrite early_outputs_destinations, <- app_assoc. }
  pose proof (early_outputs_not_merged words ts old) as Hn.
  pose proof (write_all_log sink (early_outputs words ts old) []) as He.
  destruct (write_all sink (early_outputs words ts old) []) as [log1 [[]|f]].
  - simpl in He. subst log1.
    destruct (apply_override words (take_defleet old).2) as [mutated|f].
    + match goal with
      | |- context [write_all sink ?p ?l] =>
          pose proof (write_all_log sink p l) as Hl;
          destruct (write_all sink p l) as [log2 [[]|f]]
      end.
      * subst log2. unfold destinations. by rewrite Hexp, fmap_app.
      * destruct Hl as (-> & k & Hk & ->). split.
        -- rewrite Hexp. unfold destinations at 1. rewrite fmap_app.
           apply prefix_app. rewrite fmap_take. apply prefix_take.
        -- rewrite existsb_app, Hn. simpl in Hk.
           do 5 (destruct k as [|k]; [done|]). lia.
    + destruct f; [done|]. split; [|done]. rewrite Hexp. by apply prefix_app_r.
  - destruct He as (-> & k & _ & ->). simpl. split.
    + rewrite Hexp. unfold destinations at 1. rewrite fmap_take.
      apply prefix_app_r, prefix_take.
    + rewrite <- (take_drop k (early_outputs words ts old)), existsb_app in Hn.
      by apply orb_false_elim in Hn as [-> _].
Qed.

(** C3 (the code departs from the claim).  On a line of two fields the
    full schema gives the empty string for every missing column, as the
    claim says, but the vehicle schema gives [undefined]: every field of
    the defleet and infleet entry is [undefined], and so is every field of
    the update entry but its colour. *)
Theorem vehicle_projection_of_short_line :
  let short := "Alamo,ODY-ADN0001" in
  project_vehicle short = Vehicle None None None None None None None
  /\ project_update commonWords 0 short
     = Vehicle None None None None None (Some "delta") None
  /\ infleetRecords [short; "e1"; "e2"]
     = [Vehicle None None None None None None None]
  /\ project_error short
     = [ ("brand", "Alamo"); ("ody_vehicle_id_number", "ODY-ADN0001");
         ("license_plate_number", ""); ("license_plate_state", "");
         ("year", ""); ("make", ""); ("model", ""); ("color", "");
         ("vin", ""); ("location_group", ""); ("location_code", "");
         ("location_name", ""); ("address_1", ""); ("address_2", "");
         ("city", ""); ("state", ""); ("zip", ""); ("phone_number", "");
         ("vehicle_erac", "") ].
Proof. vm_compute. repeat split. Qed.



(** C5.  The partitioner keeps the trimmed lines that are not empty, in
    their order, discards the first of them, discards the last 2 of the
    rest when there are at least 2, and then takes the last 10 of what
    remains as the defleet batch, removing them, when there are at least
    10; with fewer than 10 the batch is empty and nothing is removed.  An
    absent snapshot gives an empty tail and an empty batch. *)
Theorem partitioner_steps (text : string) :
  let lines := snapshot_lines text in
  let body := drop 1 lines in
  let tail := if 2 <=? length body then take (length body - 2) body
              else body in
  (forall l, l ∈ lines
             <-> l ∈ Text.trim <$> Text.split_lines text /\ l ≠ "")
  /\ lines `sublist_of` (Text.trim <$> Text.split_lines text)
  /\ Forall (fun l => Text.trim l = l) lines
  /\ load_yesterday (Some text) = tail
  /\ take_defleet tail
     = (if 10 <=? length tail
        then (drop (length tail - 10) tail, take (length tail - 10) tail)
        else ([], tail))
  /\ load_yesterday None = []
  /\ take_defleet (load_yesterday None) = ([], []).
Proof.
  intros lines body tail. split_and!; try done.
  - intros l. apply snapshot_lines_elem.
  - apply sublist_filter.
  - apply Forall_forall. intros l [Hl _]%snapshot_lines_elem.
    by eapply trimmed_lines_fixed.
  - unfold load_yesterday, Arr.shift. fold lines. fold body. unfold tail.
    destruct (Nat.leb_spec 2 (length body)); [|done].
    change (Arr.splice (-2) 2 body)
      with (Arr.splice (- Z.of_nat 2) (Z.of_nat 2) body).
    by rewrite splice_last by lia.
  - apply take_defleet_spec.
Qed.

(** C6 (the code departs from the claim).  On a working tail of three
    records every record of the update set is written with the colour
    [delta], as the claim says, but the override loop then throws at its
    first index, -7 (the defect of C1): the run ends before the merged
    snapshot is written, so the colour never appears in a tail line of it.
    On the tails where the loop completes the claim holds, see
    [update_colour_positional]. *)
Theorem short_tail_colour_not_merged :
  let row (n : string) :=
    "Alamo,ODY-1,ADN" +:+ n +:+ ",TX,2024,Kia,Rio,red,VIN" in
  let yest :=
    Text.join Text.NL ["5"; row "1"; row "2"; row "3"; "e1"; "e2"] in
  let tail := [row "1"; row "2"; row "3"] in
  let updated (n : string) :=
    Vehicle (Some ("ADN" +:+ n)) (Some "TX") (Some "2024") (Some "Kia")
            (Some "Rio") (Some "delta") (Some "VIN") in
  (take_defleet (load_yesterday (Some yest))).2 = tail
  /\ updateBatch tail = tail
  /\ updateData commonWords tail = [updated "1"; updated "2"; updated "3"]
  /\ Arr.get tail (updateStart tail + 0) = None
  /\ apply_override commonWords tail = Thrown TypeError
  /\ exec accept_all (generateAndMerge "ts" "csv" "n1" (Some yest))
     = ([SavedJson updateOutputDir "update" "ts"
                   (Vehicles [updated "1"; updated "2"; updated "3"])],
        Thrown TypeError).
Proof. vm_compute. repeat split. Qed.


(** C8 (counterexample).  A negative count and a count with letters after
    its digits are taken: the run starts with -5 and with 12. *)
Lemma entry_point_takes_bad_counts :
  main ["-5"; "csv"] = Start (-5) "csv"
  /\ main ["12abc"; "csv"] = Start 12 "csv".
Proof. split; reflexivity. Qed.

(** C8 (amended).  The usage error is reported, and the run does not
    start, exactly when [parseInt] finds no digit after the white space and
    the sign of the count argument (an absent argument included), or when
    the format argument in lower case, [csv] when it is absent or empty, is
    neither [csv] nor [txt].  In every other case the run starts with the
    count that was read: it is not checked against any range. *)
Theorem entry_point_gate (argv : list string) :
  let count := parseInt10 (argv !! 0) in
  let fmt := Text.toLowerCase (fmt_or_csv (argv !! 1)) in
  (main argv = UsageError
   <-> match argv !! 0 with
       | None => True
       | Some s => digits_prefix (split_sign (Text.trim_start s)).2 = []
       end
       \/ (fmt ≠ "csv" /\ fmt ≠ "txt"))
  /\ (forall c f,
        main argv = Start c f
        <-> count = Some c /\ f = fmt /\ (fmt = "csv" \/ fmt = "txt")).
Proof.
  intros count fmt. rewrite <- parseInt10_NaN. fold count.
  unfold main. fold count. fold fmt.
  pose proof (accepted_fmt_spec fmt) as Hf.
  destruct count as [c|], (accepted_fmt fmt);
    (split; [|intros c' f]); split; intros H;
    try discriminate; try (intuition congruence).
Qed.

(** C9.  The content of what a run writes and the way it ends depend only
    on the new batch text, the snapshot text and the word list: two runs on
    the same three inputs, at different times and under different file
    names, write the same record sets and the same merged text, byte for
    byte, when the sink treats equal contents alike. *)
Theorem reconciliation_deterministic (sink1 sink2 : emission -> bool)
    (words : list string) (ts1 fmt1 ts2 fmt2 today : string)
    (yest : option string) :
  (forall e1 e2, content e1 = content e2 -> sink1 e1 = sink2 e2) ->
  let run1 := exec sink1 (generateAndMerge_from words ts1 fmt1 today yest) in
  let run2 := exec sink2 (generateAndMerge_from words ts2 fmt2 today yest) in
  content <$> run1.1 = content <$> run2.1 /\ run1.2 = run2.2.
Proof.
  intros Hsink. unfold exec, generateAndMerge_from. rewrite !reconcile_run.
  set (old := load_yesterday yest). set (new := parseCsvRecords today).
  destruct (write_all_content sink1 sink2 Hsink
              (early_outputs words ts1 old) (early_outputs words ts2 old)
              [] [] (early_outputs_content words ts1 ts2 old) eq_refl)
    as [Hlog Hout].
  destruct (write_all sink1 (early_outputs words ts1 old) [])
    as [log1 out1],
    (write_all sink2 (early_outputs words ts2 old) []) as [log2 out2].
  simpl in Hlog, Hout. subst out2.
  destruct out1 as [[]|f]; [|done].
  destruct (apply_override words (take_defleet old).2) as [mutated|f];
    [|done].
  by apply write_all_content.
Qed.

(** C9 at two runs on the same texts, a day apart and under different
    formats. *)
Lemma reconciliation_deterministic_witness :
  (forall e1 e2, content e1 = content e2 -> accept_all e1 = accept_all e2)
  /\ (let run1 := exec accept_all
                    (generateAndMerge_from ["delta"; "echo"] "11-01-2026-09-00"
                       "csv" "a,b" (Some "1")) in
      let run2 := exec accept_all
                    (generateAndMerge_from ["delta"; "echo"] "11-02-2026-10-30"
                       "txt" "a,b" (Some "1")) in
      content <$> run1.1 = content <$> run2.1 /\ run1.2 = run2.2).
Proof.
  split; [reflexivity|].
  apply (reconciliation_deterministic accept_all accept_all).
  reflexivity.
Defined.

(** C10.  The new lines are the trimmed lines of the new batch text that
    are not empty and not made of decimal digits only, in their order: the
    lines that the snapshot reader would keep, less the pure numbers.  A
    pure number on a line of its own in the new batch text changes nothing
    in the parsed lines, and so nothing in the run; the same line in a
    snapshot text is kept. *)
Theorem new_batch_drops_pure_numbers (today : string) :
  (forall l,
     l ∈ parseCsvRecords today
     <-> l ∈ Text.trim <$> Text.split_lines today
         /\ l ≠ ""
         /\ ~ Forall (fun a => Text.is_digit a = true)
                     (list_ascii_of_string l))
  /\ (forall l,
        l ∈ snapshot_lines today
        <-> l ∈ Text.trim <$> Text.split_lines today /\ l ≠ "")
  /\ parseCsvRecords today
     = filter (fun l => Text.is_pure_number l = false) (snapshot_lines today)
  /\ (forall a b d,
        Text.is_pure_number d = true ->
        parseCsvRecords (a +:+ String Text.LF (d +:+ String Text.LF b))
        = parseCsvRecords (a +:+ String Text.LF b)
        /\ snapshot_lines (a +:+ String Text.LF (d +:+ String Text.LF b))
           = snapshot_lines a ++ d :: snapshot_lines b
        /\ forall words ts fmt yest,
             generateAndMerge_from words ts fmt
               (a +:+ String Text.LF (d +:+ String Text.LF b)) yest
             = generateAndMerge_from words ts fmt
                 (a +:+ String Text.LF b) yest).
Proof.
  split_and!.
  - intros l. rewrite parseCsvRecords_elem.
    split; intros (Hl & Hne & Hd); split_and!; try done.
    + intros Hdig. by rewrite (proj2 (is_pure_number_spec l)) in Hd.
    + destruct (Text.is_pure_number l) eqn:E; [|done].
      by apply is_pure_number_spec in E as [_ ?].
  - intros l. apply snapshot_lines_elem.
  - unfold parseCsvRecords, snapshot_lines. rewrite list_filter_filter.
    apply list_filter_iff. intros l.
    rewrite !Is_true_true, andb_true_iff, negb_true_iff. tauto.
  - intros a b d Hd. destruct (pure_number_line d Hd) as [Hp Hs].
    assert (parseCsvRecords (a +:+ String Text.LF (d +:+ String Text.LF b))
            = parseCsvRecords (a +:+ String Text.LF b)) as Heq.
    { by rewrite !parseCsvRecords_app, Hp. }
    split_and!; [done| |].
    + by rewrite !snapshot_lines_app, Hs.
    + intros words ts fmt yest. unfold generateAndMerge_from. by rewrite Heq.
Qed.

(** C10 at the line [12345] between two records. *)
Lemma new_batch_drops_pure_numbers_witness :
  let text := "A,1" +:+ String Text.LF ("12345" +:+ String Text.LF "B,2") in
  parseCsvRecords text = parseCsvRecords ("A,1" +:+ String Text.LF "B,2")
  /\ snapshot_lines text
     = snapshot_lines "A,1" ++ "12345" :: snapshot_lines "B,2".
Proof.
  intros text.
  destruct (new_batch_drops_pure_numbers "") as (_ & _ & _ & H).
  destruct (H "A,1" "B,2" "12345") as (H1 & H2 & _).
  - reflexivity.
  - split; [exact H1 | exact H2].
Defined.

(** * Further properties of the code *)

(** ** Writing lines and reading them back *)

Lemma toString_nonempty (n : nat) : Text.toString n ≠ "".
Proof.
  unfold Text.toString, NilZero.string_of_uint.
  by destruct (Nat.to_uint n).
Qed.

Lemma toString_clean (n : nat) : clean_line (Text.toString n).
Proof.
  split_and!.
  - apply digits_one_line, toString_digits.
  - apply trim_digits, toString_digits.
  - apply toString_nonempty.
Qed.

Lemma trimmed_lines_of_clean (ls : list string) :
  ls ≠ [] -> Forall clean_line ls ->
  Text.trim <$> Text.split_lines (Text.join Text.NL ls) = ls.
Proof.
  intros Hne Hls. rewrite split_lines_join; [|done|].
  - induction Hls as [|l ls (_ & Hl & _) _ IH]; [done|].
    rewrite fmap_cons, Hl. destruct ls as [|l' ls']; [done|].
    by rewrite IH.
  - eapply Forall_impl; [exact Hls|]. by intros l (? & _).
Qed.

Lemma filter_all {A : Type} (P : A -> Prop) `{!forall x, Decision (P x)}
    (l : list A) :
  Forall P l -> filter P l = l.
Proof.
  induction 1 as [|x l Hx _ IH]; [done|].
  by rewrite filter_cons_True, IH.
Qed.

Lemma snapshot_lines_of_clean (ls : list string) :
  Forall clean_line ls -> snapshot_lines (Text.join Text.NL ls) = ls.
Proof.
  intros Hls. destruct (decide (ls = [])) as [->|Hne]; [done|].
  unfold snapshot_lines. rewrite trimmed_lines_of_clean by done.
  apply filter_all. eapply Forall_impl; [exact Hls|].
  intros l (_ & _ & Hl). by apply Is_true_true, nonblank_spec.
Qed.

Lemma parseCsvRecords_of_clean (ls : list string) :
  Forall clean_line ls ->
  Forall (fun l => Text.is_pure_number l = false) ls ->
  parseCsvRecords (Text.join Text.NL ls) = ls.
Proof.
  intros Hls Hnum. destruct (decide (ls = [])) as [->|Hne]; [done|].
  unfold parseCsvRecords. rewrite trimmed_lines_of_clean by done.
  apply filter_all. apply Forall_forall. intros l Hl.
  rewrite Forall_forall in Hls, Hnum.
  destruct (Hls l Hl) as (_ & _ & Hb). apply Is_true_true.
  by rewrite (Hnum l Hl), (proj2 (nonblank_spec l)).
Qed.

Lemma parseCsvRecords_clean (text : string) :
  Forall clean_line (parseCsvRecords text)
  /\ Forall (fun l => Text.is_pure_number l = false) (parseCsvRecords text).
Proof.
  pose proof (parseCsvRecords_one_line text) as H1.
  rewrite !Forall_forall in *. split; intros l Hl.
  - pose proof Hl as (Ht & Hb & _)%parseCsvRecords_elem.
    split_and!; [by apply H1|by eapply trimmed_lines_fixed|done].
  - by apply parseCsvRecords_elem in Hl as (_ & _ & ?).
Qed.

(** X1.  Parsing is a projection: the parsed lines, joined with line
    breaks and parsed again, come back as they are. *)
Theorem parse_join_round_trip (text : string) :
  parseCsvRecords (Text.join Text.NL (parseCsvRecords text))
  = parseCsvRecords text.
Proof.
  destruct (parseCsvRecords_clean text).
  by apply parseCsvRecords_of_clean.
Qed.

(** A merged text of clean lines that is loaded as yesterday's file gives
    back the lines that were merged, less the count line and less the last
    2 of them when there are at least 2. *)
Lemma merged_snapshot_reloads (tail new : list string) :
  Forall clean_line (tail ++ new) ->
  load_yesterday (Some (merge_csv tail new))
  = let all := tail ++ new in
    if 2 <=? length all then take (length all - 2) all else all.
Proof.
  intros Hall. unfold load_yesterday, merge_csv.
  rewrite snapshot_lines_of_clean
    by (constructor; [apply toString_clean|done]).
  unfold Arr.shift. cbn [drop]. rewrite drop_0. cbv zeta.
  destruct (Nat.leb_spec 2 (length (tail ++ new))); [|done].
  change (Arr.splice (-2) 2 (tail ++ new))
    with (Arr.splice (- Z.of_nat 2) (Z.of_nat 2) (tail ++ new)).
  by rewrite splice_last by lia.
Qed.


(** ** The override loop and the colour column *)

(** X3.  The override loop, when it completes, keeps the number of lines
    and every line before the last ten. *)
Theorem override_keeps_other_lines (words l mutated : list string) :
  apply_override words l = Done mutated ->
  length mutated = length l
  /\ take (length l - 10) mutated = take (length l - 10) l
  /\ forall j, j < length l - 10 -> mutated !! j = l !! j.
Proof.
  intros Hdone. rewrite (apply_override_done _ _ _ Hdone).
  destruct (Nat.leb_spec 10 (length l)) as [Hl|Hl].
  - assert (length (take (length l - 10) l) = length l - 10) as Ht
      by (rewrite length_take; lia).
    split_and!.
    + rewrite length_app, length_imap, length_take, length_drop. lia.
    + by rewrite take_app_length' by done.
    + intros j Hj. rewrite lookup_app_l by lia.
      by rewrite lookup_take_lt by lia.
  - assert (l = []) as ->.
    { destruct (decide (length l = 0)) as [H0|H0];
        [by destruct l|].
      rewrite apply_override_short in Hdone by lia. discriminate. }
    split_and!; [done..|]. intros j Hj. simpl in Hj. lia.
Qed.

(** X3 at a tail of twelve lines: the first two stay. *)
Lemma override_keeps_other_lines_witness :
  let l := Text.toString <$> seq 0 12 in
  exists mutated,
    apply_override commonWords l = Done mutated
    /\ length mutated = 12
    /\ take 2 mutated = ["0"; "1"].
Proof.
  intros l.
  destruct (apply_override commonWords l) as [mutated|f] eqn:E;
    [|vm_compute in E; discriminate].
  destruct (override_keeps_other_lines commonWords l mutated E)
    as (H1 & H2 & _).
  exists mutated. split_and!; [done|exact H1|exact H2].
Defined.

(** The columns of a line after the override, for a word without a
    comma. *)
Lemma cols_of_recolor (words : list string) (i : nat) (line w : string) :
  word_at words i = Some w ->
  free_of Text.COMMA w = true ->
  cols_of (recolor words i line)
  = if defleetIdx.color <? length (cols_of line)
    then <[defleetIdx.color := w]> (cols_of line)
    else cols_of line
         ++ replicate (defleetIdx.color - length (cols_of line)) ""
         ++ [w].
Proof.
  intros Hw Hfree. unfold recolor, join_cols. rewrite Hw.
  pose proof (set_at_nonempty (Some <$> cols_of line) defleetIdx.color
                              (Some w)) as Hne.
  assert (Forall (fun x => free_of Text.COMMA x = true)
                 (default "" <$> Arr.set_at (Some <$> cols_of line)
                                            defleetIdx.color (Some w)))
    as Hall.
  { apply Forall_forall. intros x (o & -> & Ho)%list_elem_of_fmap.
    apply set_at_elem in Ho as [Ho|[->| ->]]; [|done..].
    apply list_elem_of_fmap in Ho as (c & -> & Hc). simpl.
    pose proof (split_on_pieces_free Text.COMMA line) as Hp.
    rewrite Forall_forall in Hp. by apply Hp. }
  unfold cols_of at 1. change "," with (String Text.COMMA "").
  rewrite split_on_join; [|by intros ?%fmap_nil_inv|done].
  apply render_set_at.
Qed.

(** X4.  For a word without a comma, the override of a line changes the
    colour column only: every other column that the line has keeps its
    text, and the line ends up with 8 columns at least. *)
Theorem recolor_other_columns (words : list string) (i j : nat)
    (line w : string) :
  word_at words i = Some w ->
  free_of Text.COMMA w = true ->
  j < length (cols_of line) -> j ≠ defleetIdx.color ->
  cols_of (recolor words i line) !! j = cols_of line !! j
  /\ cols_of (recolor words i line) !! defleetIdx.color = Some w
  /\ length (cols_of (recolor words i line))
     = Nat.max (length (cols_of line)) (S defleetIdx.color).
Proof.
  intros Hw Hfree Hj Hne. rewrite (cols_of_recolor words i line w Hw Hfree).
  destruct (Nat.ltb_spec defleetIdx.color (length (cols_of line))) as [H|H].
  - split_and!.
    + by rewrite list_lookup_insert_ne.
    + by rewrite list_lookup_insert_eq.
    + rewrite length_insert. lia.
  - split_and!.
    + by rewrite lookup_app_l.
    + rewrite lookup_app_r by done.
      rewrite lookup_app_r by (rewrite length_replicate; lia).
      rewrite length_replicate. by rewrite Nat.sub_diag.
    + rewrite !length_app, length_replicate. simpl. lia.
Qed.

(** X4 at a line of three columns. *)
Lemma recolor_other_columns_witness :
  cols_of (recolor commonWords 0 "a,b,c") !! 1 = cols_of "a,b,c" !! 1
  /\ cols_of (recolor commonWords 0 "a,b,c") !! defleetIdx.color
     = Some "delta"
  /\ length (cols_of (recolor commonWords 0 "a,b,c")) = 8.
Proof.
  apply (recolor_other_columns commonWords 0 1 "a,b,c" "delta");
    [reflexivity|reflexivity|vm_compute; lia|discriminate].
Defined.

(** X5.  The override leaves a line as it is when the line already has
    the word in its colour column; so, for a word without a comma, the
    override of an overridden line changes nothing. *)
Theorem recolor_fixed_point (words : list string) (i : nat)
    (line w : string) :
  word_at words i = Some w ->
  (cols_of line !! defleetIdx.color = Some w -> recolor words i line = line)
  /\ (free_of Text.COMMA w = true ->
      recolor words i (recolor words i line) = recolor words i line).
Proof.
  intros Hw.
  assert (forall l, cols_of l !! defleetIdx.color = Some w ->
                    recolor words i l = l) as Hfix.
  { intros l Hl. unfold recolor, join_cols. rewrite Hw, render_set_at.
    pose proof (lookup_lt_Some _ _ _ Hl) as Hlt.
    destruct (Nat.ltb_spec defleetIdx.color (length (cols_of l)));
      [|lia].
    rewrite list_insert_id by done. unfold cols_of.
    change "," with (String Text.COMMA ""). apply join_split_on. }
  split; [apply Hfix|]. intros Hfree. apply Hfix.
  by apply recolor_color.
Qed.

(** X5 at a line whose colour column is [delta] already, and at one where
    it is not. *)
Lemma recolor_fixed_point_witness :
  recolor commonWords 0 "a,b,c,d,e,f,g,delta,i" = "a,b,c,d,e,f,g,delta,i"
  /\ recolor commonWords 0 (recolor commonWords 0 "a,b")
     = recolor commonWords 0 "a,b".
Proof.
  split.
  - apply (recolor_fixed_point commonWords 0 "a,b,c,d,e,f,g,delta,i" "delta");
      reflexivity.
  - apply (recolor_fixed_point commonWords 0 "a,b" "delta"); reflexivity.
Defined.

(** X6.  The two sinks of the update agree: for a word without a comma
    and a line of 7 columns or more, the vehicle projection of the
    overridden line is the update record that was written for the line. *)
Theorem update_sinks_agree (words : list string) (i : nat)
    (line w : string) :
  word_at words i = Some w ->
  free_of Text.COMMA w = true ->
  defleetIdx.color <= length (cols_of line) ->
  project_vehicle (recolor words i line) = project_update words i line.
Proof.
  intros Hw Hfree Hlen. unfold project_vehicle, project_update.
  rewrite (cols_of_recolor words i line w Hw Hfree), Hw.
  unfold defleetIdx.color, defleetIdx.license_plate_number,
    defleetIdx.license_plate_state, defleetIdx.year, defleetIdx.make,
    defleetIdx.model, defleetIdx.vin in *.
  destruct (Nat.ltb_spec 7 (length (cols_of line))) as [H|H].
  - f_equal;
      first [ by apply list_lookup_insert_ne; lia
            | by apply list_lookup_insert_eq; lia ].
  - assert (length (cols_of line) = 7) as Hl by lia.
    rewrite Hl. simpl replicate.
    rewrite !lookup_app_l by lia.
    rewrite (lookup_app_r _ _ 7), (lookup_app_r _ _ 8) by lia.
    rewrite Hl. simpl.
    by rewrite (lookup_ge_None_2 (cols_of line) 8) by lia.
Qed.

(** X6 at a full line and at a line of exactly 7 columns. *)
Lemma update_sinks_agree_witness :
  project_vehicle (recolor commonWords 3 "b,o,P,TX,2024,Kia,Rio,red,V,G")
  = project_update commonWords 3 "b,o,P,TX,2024,Kia,Rio,red,V,G"
  /\ project_vehicle (recolor commonWords 0 "b,o,P,TX,2024,Kia,Rio")
     = project_update commonWords 0 "b,o,P,TX,2024,Kia,Rio".
Proof.
  split.
  - apply (update_sinks_agree commonWords 3 _ "delta");
      [reflexivity|reflexivity|vm_compute; lia].
  - apply (update_sinks_agree commonWords 0 _ "delta");
      [reflexivity|reflexivity|vm_compute; lia].
Defined.

(** ** The batches of the old records *)

Lemma take_defleet_working_length (old : list string) :
  length (take_defleet old).2
  = if 10 <=? length old then length old - 10 else length old.
Proof.
  rewrite take_defleet_spec.
  destruct (Nat.leb_spec 10 (length old)); cbn [snd]; [|done].
  rewrite length_take. lia.
Qed.

(** X7.  The old records are cut into three consecutive parts and nothing
    is lost: the lines that stay as they are, the update batch, and the
    defleet batch.  The defleet batch has 10 records or none, the update
    batch 10 at most. *)
Theorem old_records_partition (old : list string) :
  let defleetBatch := (take_defleet old).1 in
  let working := (take_defleet old).2 in
  old = take (length working - length (updateBatch working)) working
        ++ updateBatch working ++ defleetBatch
  /\ (length defleetBatch = 0 \/ length defleetBatch = 10)
  /\ length (updateBatch working) <= 10.
Proof.
  intros defleetBatch working.
  assert (working ++ defleetBatch = old) as Hold.
  { unfold working, defleetBatch. rewrite take_defleet_spec.
    destruct (10 <=? length old); cbn [fst snd];
      [apply take_drop|apply app_nil_r]. }
  assert (take (length working - length (updateBatch working)) working
          ++ updateBatch working = working) as Hw.
  { rewrite updateBatch_spec.
    destruct (10 <=? length working); rewrite length_drop;
      match goal with
      | |- take ?a _ ++ drop ?b _ = _ => replace a with b by lia
      end; apply take_drop. }
  split_and!.
  - by rewrite app_assoc, Hw.
  - unfold defleetBatch. rewrite take_defleet_spec.
    destruct (Nat.leb_spec 10 (length old)); cbn [fst]; [right|by left].
    rewrite length_drop. lia.
  - rewrite updateBatch_length.
    destruct (10 <=? length working); lia.
Qed.

(** X8.  The update batch is the last 10 lines of a tail of 10 lines or
    more and the whole tail when it has 5 lines or fewer; of a tail of 6
    to 9 lines it is only the last [10 - n] lines, as the start index
    [n - 10] is then read from the end. *)
Theorem update_batch_window (l : list string) :
  updateBatch l
  = if 10 <=? length l then drop (length l - 10) l
    else if length l <=? 5 then l
    else drop (2 * length l - 10) l.
Proof.
  rewrite updateBatch_spec.
  destruct (Nat.leb_spec 10 (length l)); [done|].
  destruct (Nat.leb_spec (length l) 5).
  - replace (length l - (10 - length l)) with 0 by lia. apply drop_0.
  - f_equal. lia.
Qed.

(** X9.  With a sink that takes every write, a run completes exactly when
    the cleaned snapshot has no record, 10 records, or 20 and more; with
    1 to 9 or 11 to 19 records the override loop throws a [TypeError]. *)
Theorem run_completes_iff (words : list string) (ts fileName : string)
    (old new : list string) :
  (exec accept_all (reconcile words ts fileName old new)).2
  = if (length old =? 0) || (length old =? 10) || (20 <=? length old)
    then Done tt else Thrown TypeError.
Proof.
  rewrite reconcile_accept_all.
  pose proof (take_defleet_working_length old) as Hlen.
  pose proof (apply_override_total words (take_defleet old).2) as Htot.
  pose proof (apply_override_short words (take_defleet old).2) as Hshort.
  destruct (Nat.eqb_spec (length old) 0), (Nat.eqb_spec (length old) 10),
    (Nat.leb_spec 20 (length old)), (Nat.leb_spec 10 (length old));
    try lia; cbn [orb];
    first [ destruct (proj2 Htot ltac:(lia)) as [m ->]; reflexivity
          | rewrite Hshort by lia; reflexivity ].
Qed.

(** X10.  The count line of a merged snapshot is the number of old
    records, less the defleet batch, plus the number of new lines. *)
Theorem merged_count (words old new mutated : list string) :
  apply_override words (take_defleet old).2 = Done mutated ->
  let total := length old - length (take_defleet old).1 + length new in
  length (mutated ++ new) = total
  /\ merge_csv mutated new
     = Text.join Text.NL (Text.toString total :: mutated ++ new)
  /\ read_count (Text.toString total) = Some total.
Proof.
  intros Hdone total.
  assert (length mutated + length new = total) as Htot.
  { unfold total.
    assert (length mutated = length (take_defleet old).2) as ->.
    { rewrite (apply_override_done _ _ _ Hdone).
      destruct (Nat.leb_spec 10 (length (take_defleet old).2)) as [H|H].
      - rewrite length_app, length_imap, length_take, length_drop. lia.
      - destruct (decide (length (take_defleet old).2 = 0)) as [->|H0];
          [done|].
        rewrite apply_override_short in Hdone by lia. discriminate. }
    rewrite take_defleet_spec.
    destruct (Nat.leb_spec 10 (length old)); cbn [fst snd].
    - rewrite length_take, length_drop. lia.
    - simpl. lia. }
  split_and!.
  - by rewrite length_app.
  - unfold merge_csv. by rewrite Htot.
  - apply read_count_toString.
Qed.

(** X10 at a snapshot of 22 records and a new batch of 12 lines: the
    count is (22 - 10) + 12. *)
Lemma merged_count_witness :
  let old := Text.toString <$> seq 0 22 in
  let new := Text.toString <$> seq 100 12 in
  exists mutated,
    apply_override commonWords (take_defleet old).2 = Done mutated
    /\ length (mutated ++ new) = 24.
Proof.
  intros old new.
  destruct (apply_override commonWords (take_defleet old).2)
    as [mutated|f] eqn:E; [|vm_compute in E; discriminate].
  destruct (merged_count commonWords old new mutated E) as (H & _).
  exists mutated. split; [done|exact H].
Defined.

(** ** Error records *)

(** X11.  An error record has the 19 keys of the column mapping, in their
    order, whatever the line; its values are the first 19 columns of the
    line, with the empty string for each column that the line does not
    have. *)
Theorem error_record_complete (line : string) :
  (project_error line).*1 = errorColumnMapping.*1
  /\ length (project_error line) = 19
  /\ (project_error line).*2
     = take 19 (cols_of line ++ replicate 19 "").
Proof.
  split_and!.
  - apply project_error_keys.
  - unfold project_error. by rewrite length_fmap.
  - assert ((project_error line).*2
            = (fun idx => or_empty (cols_of line !! idx)) <$> seq 0 19)
      as -> by reflexivity.
    remember (replicate 19 "") as pad eqn:Hpad.
    apply list_eq. intros k. rewrite list_lookup_fmap.
    destruct (decide (k < 19)) as [Hk|Hk].
    + rewrite lookup_seq_lt, lookup_take_lt by done. simpl.
      destruct (cols_of line !! k) as [v|] eqn:E.
      * rewrite lookup_app_l by by eapply lookup_lt_Some.
        rewrite E. simpl. unfold Text.nonblank.
        by destruct (String.eqb_spec v "") as [->|].
      * apply lookup_ge_None in E. rewrite lookup_app_r by done.
        subst pad. by rewrite lookup_replicate_2 by lia.
    + rewrite lookup_seq_ge, lookup_take_ge by lia. done.
Qed.

(** ** Counts and formats at the entry point *)





Lemma lower_idem (a : ascii) : Text.lower (Text.lower a) = Text.lower a.
Proof. destruct a as [[] [] [] [] [] [] [] []]; reflexivity. Qed.

Lemma toLowerCase_idem (s : string) :
  Text.toLowerCase (Text.toLowerCase s) = Text.toLowerCase s.
Proof.
  induction s as [|a s IH]; [done|]. simpl. by rewrite lower_idem, IH.
Qed.

(** X13.  The format argument is read without regard to case: an
    invocation and the same invocation with the format in lower case have
    the same outcome. *)
Theorem entry_format_case_insensitive (rawCount rawFmt : string) :
  main [rawCount; rawFmt] = main [rawCount; Text.toLowerCase rawFmt].
Proof.
  unfold main. cbn [lookup list_lookup].
  assert (Text.toLowerCase (fmt_or_csv (Some (Text.toLowerCase rawFmt)))
          = Text.toLowerCase (fmt_or_csv (Some rawFmt))) as ->; [|done].
  unfold fmt_or_csv. destruct rawFmt as [|a s]; [done|].
  simpl. by rewrite lower_idem, toLowerCase_idem.
Qed.

(** ** Synthetic fleet data *)

Lemma read_count_leading_zero (s : string) :
  s ≠ "" -> read_count (String "0" s) = read_count s.
Proof.
  intros Hs. unfold read_count, NilZero.uint_of_string.
  destruct s as [|a s]; [done|].
  change (NilEmpty.uint_of_string (String "0" (String a s)))
    with (uint_of_char "0" (NilEmpty.uint_of_string (String a s))).
  by destruct (NilEmpty.uint_of_string (String a s)).
Qed.

(** A numeral padded with zeros still reads as its number. *)
Lemma read_count_padStart (n i : nat) :
  read_count (padStart n "0" (Text.toString i)) = Some i.
Proof.
  unfold padStart.
  induction (n - String.length (Text.toString i)) as [|k IH].
  - apply read_count_toString.
  - simpl replicate. simpl string_of_list_ascii. rewrite append_cons.
    rewrite read_count_leading_zero; [done|].
    pose proof (toString_nonempty i).
    destruct (string_of_list_ascii (replicate k "0"%char)); [done|].
    by rewrite append_cons.
Qed.

Lemma padStart_inj (n i j : nat) :
  padStart n "0" (Text.toString i) = padStart n "0" (Text.toString j) ->
  i = j.
Proof.
  intros H. pose proof (read_count_padStart n i) as Hi.
  rewrite H, read_count_padStart in Hi. congruence.
Qed.

#[local] Instance generateOdyVehicleId_inj : Inj (=) (=) generateOdyVehicleId.
Proof.
  intros i j H. unfold generateOdyVehicleId, plate_prefix in H.
  simpl in H. injection H as H. by eapply padStart_inj.
Qed.

#[local] Instance generateEracVehicleId_inj :
  Inj (=) (=) generateEracVehicleId.
Proof.
  intros i j H. unfold generateEracVehicleId, plate_prefix in H.
  simpl in H. injection H as H. by eapply padStart_inj.
Qed.

#[local] Instance generateRandomLicensePlate_inj :
  Inj (=) (=) generateRandomLicensePlate.
Proof.
  intros i j H. unfold generateRandomLicensePlate, plate_prefix in H.
  simpl in H. injection H as H. by eapply padStart_inj.
Qed.

Section GenerationFacts.
Variable usStates : list string.
Variable draw : nat -> drawn.

(** The row at index [k] of the generated data. *)
Lemma generateSFleetData_lookup (count : Z) (k : nat) :
  let n := Z.to_nat count in
  k < n ->
  generateSFleetData usStates draw count !! k
  = Some (let r := generated_row usStates draw (S k) in
          let r1 := if (10 <=? n) && (k =? n - 1)
                    then FleetRow.set_license_plate_number "" r else r in
          if (10 <=? n) && (k =? n - 2)
          then FleetRow.set_license_plate_state "" r1 else r1).
Proof.
  intros n Hk. unfold generateSFleetData. fold n.
  rewrite length_fmap, length_seq.
  assert ((generated_row usStates draw <$> seq 1 n) !! k
          = Some (generated_row usStates draw (S k))) as Hrow.
  { by rewrite list_lookup_fmap, lookup_seq_lt. }
  destruct (Nat.leb_spec 10 n) as [Hn|Hn]; cbn [andb]; [|done].
  replace (n - 1 - 1) with (n - 2) by lia.
  destruct (Nat.eqb_spec k (n - 2)) as [->|H2].
  - rewrite list_lookup_alter_eq, list_lookup_alter_ne by lia.
    replace (S (n - 2)) with (n - 1) in * by lia.
    destruct (Nat.eqb_spec (n - 2) (n - 1)); [lia|].
    replace (S (n - 2)) with (n - 1) in Hrow by lia.
    by rewrite Hrow.
  - rewrite list_lookup_alter_ne by done.
    destruct (Nat.eqb_spec k (n - 1)) as [->|H1].
    + rewrite list_lookup_alter_eq. by rewrite Hrow.
    + by rewrite list_lookup_alter_ne.
Qed.

Lemma generateSFleetData_length (count : Z) :
  length (generateSFleetData usStates draw count) = Z.to_nat count.
Proof.
  unfold generateSFleetData.
  destruct (10 <=? _); rewrite ?length_alter, length_fmap; apply length_seq.
Qed.

(** A field that the blanking does not touch, read over all rows. *)
Lemma generateSFleetData_field {B : Type} (f : FleetRow.t -> B) (count : Z) :
  (forall v r, f (FleetRow.set_license_plate_number v r) = f r) ->
  (forall v r, f (FleetRow.set_license_plate_state v r) = f r) ->
  f <$> generateSFleetData usStates draw count
  = (fun i => f (generated_row usStates draw i))
    <$> seq 1 (Z.to_nat count).
Proof.
  intros H1 H2. apply list_eq. intros k.
  rewrite !list_lookup_fmap.
  destruct (decide (k < Z.to_nat count)) as [Hk|Hk].
  - rewrite generateSFleetData_lookup, lookup_seq_lt by done. simpl.
    f_equal. destruct (_ && _), (_ && _); by rewrite ?H2, ?H1.
  - rewrite !lookup_ge_None_2;
      [done|rewrite length_seq; lia
      |rewrite generateSFleetData_length; lia].
Qed.

End GenerationFacts.

(** X14.  With a table of states that is not empty, the generator gives
    as many rows as the count says, and none for a count below 1. *)
Theorem generated_length (usStates : list string) (draw : nat -> drawn)
    (count : Z) :
  usStates ≠ [] ->
  length (generateSFleetData usStates draw count) = Z.to_nat count
  /\ ((count < 1)%Z -> generateSFleetData usStates draw count = []).
Proof.
  intros _. split; [apply generateSFleetData_length|].
  intros Hc. apply length_zero_iff_nil.
  rewrite generateSFleetData_length. lia.
Qed.

(** X14 at a count of 12 and at a count of -3. *)
Lemma generated_length_witness :
  let d := Drawn "Alamo" 2024 "Kia" "Rio" "red" "V" None "c" "a" "c" "TX"
                 30001 "p" in
  length (generateSFleetData ["TX"; "CA"] (fun _ => d) 12) = 12
  /\ generateSFleetData ["TX"; "CA"] (fun _ => d) (-3) = [].
Proof.
  intros d.
  destruct (generated_length ["TX"; "CA"] (fun _ => d) 12) as [H _];
    [discriminate|].
  destruct (generated_length ["TX"; "CA"] (fun _ => d) (-3)) as [_ H'];
    [discriminate|].
  split; [exact H|apply H'; lia].
Defined.

(** X15.  The vehicle ids of the generated rows are pairwise distinct,
    the ODY ids as well as the ERAC ids, and the row at index [k] carries
    the ids of [k + 1]; the blanking leaves them alone. *)
Theorem generated_ids_distinct (usStates : list string)
    (draw : nat -> drawn) (count : Z) :
  usStates ≠ [] ->
  let rows := generateSFleetData usStates draw count in
  NoDup (FleetRow.ody_vehicle_id_number <$> rows)
  /\ NoDup (FleetRow.vehicle_erac <$> rows)
  /\ FleetRow.ody_vehicle_id_number <$> rows
     = generateOdyVehicleId <$> seq 1 (Z.to_nat count)
  /\ FleetRow.vehicle_erac <$> rows
     = generateEracVehicleId <$> seq 1 (Z.to_nat count).
Proof.
  intros _ rows. unfold rows.
  rewrite !generateSFleetData_field by done. simpl.
  split_and!; try done; apply NoDup_fmap_2; try apply _; apply NoDup_seq.
Qed.

(** X15 at a count of 12. *)
Lemma generated_ids_distinct_witness :
  let d := Drawn "Alamo" 2024 "Kia" "Rio" "red" "V" None "c" "a" "c" "TX"
                 30001 "p" in
  let rows := generateSFleetData ["TX"; "CA"] (fun _ => d) 12 in
  NoDup (FleetRow.ody_vehicle_id_number <$> rows)
  /\ NoDup (FleetRow.vehicle_erac <$> rows).
Proof.
  intros d rows.
  destruct (generated_ids_distinct ["TX"; "CA"] (fun _ => d) 12)
    as (H1 & H2 & _); [discriminate|].
  split; [exact H1|exact H2].
Defined.

(** X16.  The generator blanks two fields and only when it makes 10 rows
    or more: the plate number of the last row and the plate state of the
    row before it.  Every other row has the plate [ADN] with its index
    padded to 4 digits, and the state of the table at its index, taken
    round. *)
Theorem generated_blanking (usStates : list string) (draw : nat -> drawn)
    (count : Z) (k : nat) (r : FleetRow.t) :
  usStates ≠ [] ->
  generateSFleetData usStates draw count !! k = Some r ->
  let n := Z.to_nat count in
  FleetRow.license_plate_number r
  = (if (10 <=? n) && (k =? n - 1) then ""
     else generateRandomLicensePlate (S k))
  /\ FleetRow.license_plate_state r
     = (if (10 <=? n) && (k =? n - 2) then Some ""
        else usStates !! (k mod length usStates))
  /\ is_Some (FleetRow.license_plate_state r).
Proof.
  intros Hus Hr n.
  assert (k < n) as Hk.
  { apply lookup_lt_Some in Hr.
    by rewrite generateSFleetData_length in Hr. }
  pose proof (generateSFleetData_lookup usStates draw count k Hk) as Hl.
  cbv zeta in Hl. fold n in Hl.
  assert (is_Some (usStates !! (k mod length usStates))) as Hsome.
  { apply lookup_lt_is_Some_2, Nat.mod_upper_bound.
    by destruct usStates. }
  remember ((10 <=? n) && (k =? n - 1)) as b1 eqn:E1.
  remember ((10 <=? n) && (k =? n - 2)) as b2 eqn:E2.
  rewrite Hl in Hr. injection Hr as <-.
  destruct b1, b2; simpl; rewrite ?Nat.sub_0_r; split_and!; eauto.
Qed.

(** X16 at the last two of 12 rows and at the last of 9. *)
Lemma generated_blanking_witness :
  let d := Drawn "Alamo" 2024 "Kia" "Rio" "red" "V" None "c" "a" "c" "TX"
                 30001 "p" in
  let us := ["TX"; "CA"; "NY"] in
  let plate_and_state (r : FleetRow.t) :=
    (FleetRow.license_plate_number r, FleetRow.license_plate_state r) in
  plate_and_state <$> generateSFleetData us (fun _ => d) 12 !! 11
  = Some ("", Some "NY")
  /\ plate_and_state <$> generateSFleetData us (fun _ => d) 12 !! 10
     = Some ("ADN0011", Some "")
  /\ plate_and_state <$> generateSFleetData us (fun _ => d) 9 !! 8
     = Some ("ADN0009", Some "NY").
Proof.
  intros d us plate_and_state. split_and!.
  - destruct (generateSFleetData us (fun _ => d) 12 !! 11) as [r|] eqn:Hr;
      [|by vm_compute in Hr].
    destruct (generated_blanking us (fun _ => d) 12 11 r) as (H1 & H2 & _);
      [discriminate|exact Hr|].
    unfold plate_and_state. simpl. by rewrite H1, H2.
  - destruct (generateSFleetData us (fun _ => d) 12 !! 10) as [r|] eqn:Hr;
      [|by vm_compute in Hr].
    destruct (generated_blanking us (fun _ => d) 12 10 r) as (H1 & H2 & _);
      [discriminate|exact Hr|].
    unfold plate_and_state. simpl. by rewrite H1, H2.
  - destruct (generateSFleetData us (fun _ => d) 9 !! 8) as [r|] eqn:Hr;
      [|by vm_compute in Hr].
    destruct (generated_blanking us (fun _ => d) 9 8 r) as (H1 & H2 & _);
      [discriminate|exact Hr|].
    unfold plate_and_state. simpl. by rewrite H1, H2.
Defined.

(** X17.  No two generated rows share a plate number, the blanked plate
    of the last row apart. *)
Theorem generated_plates_distinct (usStates : list string)
    (draw : nat -> drawn) (count : Z) (k1 k2 : nat) (r1 r2 : FleetRow.t) :
  usStates ≠ [] ->
  generateSFleetData usStates draw count !! k1 = Some r1 ->
  generateSFleetData usStates draw count !! k2 = Some r2 ->
  FleetRow.license_plate_number r1 = FleetRow.license_plate_number r2 ->
  FleetRow.license_plate_number r1 ≠ "" ->
  k1 = k2.
Proof.
  intros _ H1 H2 Heq Hne.
  assert (forall k r,
            generateSFleetData usStates draw count !! k = Some r ->
            FleetRow.license_plate_number r = ""
            \/ FleetRow.license_plate_number r
               = generateRandomLicensePlate (S k)) as Hplate.
  { intros k r Hr.
    assert (k < Z.to_nat count) as Hk.
    { apply lookup_lt_Some in Hr.
      by rewrite generateSFleetData_length in Hr. }
    pose proof (generateSFleetData_lookup usStates draw count k Hk) as Hl.
    cbv zeta in Hl.
    remember ((10 <=? Z.to_nat count) && (k =? Z.to_nat count - 1)) as b1.
    remember ((10 <=? Z.to_nat count) && (k =? Z.to_nat count - 2)) as b2.
    rewrite Hl in Hr. injection Hr as <-.
    destruct b1, b2; simpl; auto. }
  destruct (Hplate k1 r1 H1) as [E1|E1]; [done|].
  destruct (Hplate k2 r2 H2) as [E2|E2]; [congruence|].
  rewrite E1, E2 in Heq.
  apply generateRandomLicensePlate_inj in Heq. lia.
Qed.

(** X17 at rows 3 and 7 of 12. *)
Lemma generated_plates_distinct_witness :
  let d := Drawn "Alamo" 2024 "Kia" "Rio" "red" "V" None "c" "a" "c" "TX"
                 30001 "p" in
  let rows := generateSFleetData ["TX"; "CA"] (fun _ => d) 12 in
  FleetRow.license_plate_number <$> rows !! 3
  ≠ FleetRow.license_plate_number <$> rows !! 7.
Proof.
  intros d rows.
  destruct (rows !! 3) as [r1|] eqn:H1; [|by vm_compute in H1].
  destruct (rows !! 7) as [r2|] eqn:H2; [|by vm_compute in H2].
  simpl. intros Heq. injection Heq as Heq.
  assert (3 = 7) as H; [|discriminate H].
  apply (generated_plates_distinct ["TX"; "CA"] (fun _ => d) 12 3 7 r1 r2);
    [discriminate|exact H1|exact H2|exact Heq|].
  vm_compute in H1. injection H1 as <-. discriminate.
Defined.

(** ** Yesterday's file on the remote store *)

Lemma strip_prefix_spec (p s r : string) :
  strip_prefix p s = Some r <-> s = p +:+ r.
Proof.
  revert s. induction p as [|a p IH]; intros s.
  - change ("" +:+ r) with r. simpl. split; congruence.
  - rewrite append_cons. simpl.
    destruct s as [|b s]; [split; discriminate|].
    destruct (Ascii.eqb_spec a b) as [->|Hab].
    + rewrite IH. split; [by intros ->|by intros [= ->]].
    + split; [discriminate|]. intros [= ? ?]. congruence.
Qed.

Lemma append_assoc (a b c : string) : (a +:+ b) +:+ c = a +:+ b +:+ c.
Proof.
  induction a as [|x a IH]; [done|]. by rewrite !append_cons, IH.
Qed.

(** X18.  A name passes the test of yesterday's files exactly when it is
    [em-fleet-], the date key, a dash, two digits, a dash, two digits, a
    dot and the format, with nothing before or after. *)
Theorem matches_name_shape (key fmt name : string) :
  matches_name key fmt name = true
  <-> exists a b c d,
        Text.is_digit a = true /\ Text.is_digit b = true
        /\ Text.is_digit c = true /\ Text.is_digit d = true
        /\ name = "em-fleet-" +:+ key +:+ "-"
                  +:+ String a (String b (String "-" (String c (String d
                        ("." +:+ fmt))))).
Proof.
  unfold matches_name. split.
  - destruct (strip_prefix _ name) as [r|] eqn:E; [|discriminate].
    apply strip_prefix_spec in E.
    destruct r as [|a [|b [|dash [|c [|d rest]]]]]; try discriminate.
    rewrite !andb_true_iff.
    intros (((((Ha & Hb) & ->%Ascii.eqb_eq) & Hc) & Hd) & ->%String.eqb_eq).
    exists a, b, c, d. split_and!; try done.
    rewrite E. by rewrite !append_assoc.
  - intros (a & b & c & d & Ha & Hb & Hc & Hd & ->).
    assert (strip_prefix ("em-fleet-" +:+ key +:+ "-")
              ("em-fleet-" +:+ key +:+ "-"
               +:+ String a (String b (String "-" (String c (String d
                     ("." +:+ fmt))))))
            = Some (String a (String b (String "-" (String c (String d
                      ("." +:+ fmt))))))) as ->.
    { apply strip_prefix_spec. by rewrite !append_assoc. }
    by rewrite Ha, Hb, Hc, Hd, String.eqb_refl.
Qed.

Section RemoteFacts.
Variable localeCompare : string -> string -> Z.
Variable join_path : string -> string -> string.

Lemma elem_of_insert_descending (x y : string) (l : list string) :
  y ∈ insert_descending localeCompare x l <-> y = x \/ y ∈ l.
Proof.
  induction l as [|z l IH]; simpl.
  - rewrite list_elem_of_singleton, elem_of_nil. tauto.
  - destruct (localeCompare z x <=? 0)%Z.
    + by rewrite elem_of_cons.
    + rewrite !elem_of_cons, IH. tauto.
Qed.

Lemma elem_of_sort_descending (y : string) (l : list string) :
  y ∈ sort_descending localeCompare l <-> y ∈ l.
Proof.
  induction l as [|x l IH]; [done|]. simpl.
  by rewrite elem_of_insert_descending, elem_of_cons, IH.
Qed.

Lemma head_sort_descending_elem (l : list string) (h : string) :
  head (sort_descending localeCompare l) = Some h -> h ∈ l.
Proof.
  intros H. apply elem_of_sort_descending.
  destruct (sort_descending localeCompare l); [done|].
  injection H as ->. by left.
Qed.

Lemma head_sort_descending_None (l : list string) :
  head (sort_descending localeCompare l) = None -> l = [].
Proof.
  intros H. destruct l as [|x l]; [done|].
  assert (x ∈ sort_descending localeCompare (x :: l)) as Hx
    by (apply elem_of_sort_descending; by left).
  destruct (sort_descending localeCompare (x :: l)); [|done].
  by apply elem_of_nil in Hx.
Qed.

Section Ordered.
Hypothesis compare_total :
  forall a b, (localeCompare a b <= 0)%Z \/ (localeCompare b a <= 0)%Z.
Hypothesis compare_trans :
  forall a b c, (localeCompare a b <= 0)%Z -> (localeCompare b c <= 0)%Z ->
                (localeCompare a c <= 0)%Z.

Lemma head_sort_descending_max (l : list string) (h : string) :
  head (sort_descending localeCompare l) = Some h ->
  forall y, y ∈ l -> (localeCompare y h <= 0)%Z.
Proof.
  revert h. induction l as [|x l IH]; intros h Hh y Hy.
  { by apply elem_of_nil in Hy. }
  simpl in Hh.
  destruct (sort_descending localeCompare l) as [|z t] eqn:Es.
  - simpl in Hh. injection Hh as <-.
    assert (l = []) as -> by (apply head_sort_descending_None; by rewrite Es).
    apply list_elem_of_singleton in Hy as ->.
    by destruct (compare_total x x).
  - specialize (IH z eq_refl). simpl in Hh.
    destruct (Z.leb_spec (localeCompare z x) 0) as [Hzx|Hzx];
      simpl in Hh; injection Hh as <-;
      apply elem_of_cons in Hy as [->|Hy].
    + by destruct (compare_total x x).
    + eapply compare_trans; [by apply IH|done].
    + destruct (compare_total x z); [done|lia].
    + by apply IH.
Qed.

End Ordered.

Lemma getYesterdayRemoteFile_Some (names : list string)
    (remoteDir key fmt p : string) :
  getYesterdayRemoteFile localeCompare join_path names remoteDir key fmt
  = Some p ->
  exists name,
    head (sort_descending localeCompare
            (filter (fun name => matches_name key fmt name) names))
    = Some name
    /\ p = join_path remoteDir name
    /\ name ∈ names /\ matches_name key fmt name = true.
Proof.
  unfold getYesterdayRemoteFile. destruct (length _ =? 0); [done|].
  destruct (head _) as [name|] eqn:E; [|done]. intros [= <-].
  exists name. split_and!; [done..| |];
    apply head_sort_descending_elem, list_elem_of_filter in E as [Hm Hn];
    [done|by apply Is_true_true].
Qed.

End RemoteFacts.

(** X19.  No path is returned exactly when no name in the listing passes
    the test of yesterday's files. *)
Theorem no_remote_file_iff (localeCompare : string -> string -> Z)
    (join_path : string -> string -> string) (names : list string)
    (remoteDir key fmt : string) :
  getYesterdayRemoteFile localeCompare join_path names remoteDir key fmt
  = None
  <-> forall name, name ∈ names -> matches_name key fmt name = false.
Proof.
  unfold getYesterdayRemoteFile.
  set (matches := filter (fun name => matches_name key fmt name) names).
  assert (matches = [] <->
          forall name, name ∈ names -> matches_name key fmt name = false)
    as Hiff.
  { split.
    - intros Hnil name Hin.
      destruct (matches_name key fmt name) eqn:E; [|done].
      assert (name ∈ matches) as Hm
        by (apply list_elem_of_filter; split; [by apply Is_true_true|done]).
      rewrite Hnil in Hm. by apply elem_of_nil in Hm.
    - intros Hno. destruct matches as [|x t] eqn:E; [done|].
      assert (x ∈ matches) as Hx by (rewrite E; by left).
      apply list_elem_of_filter in Hx as [Hm%Is_true_true Hin].
      rewrite (Hno x Hin) in Hm. discriminate. }
  rewrite <- Hiff. destruct matches as [|x t] eqn:E; [done|].
  simpl length. cbn [Nat.eqb]. split; [|done].
  destruct (head (sort_descending localeCompare (x :: t))) eqn:Eh;
    [done|].
  by apply head_sort_descending_None in Eh.
Qed.

(** X20.  When [localeCompare] is a total and transitive order, the path
    returned is the remote directory joined with a name of the listing
    that passes the test, and no name of the listing that passes the test
    sorts after it: it is the latest file of yesterday. *)
Theorem remote_file_is_latest (localeCompare : string -> string -> Z)
    (join_path : string -> string -> string) (names : list string)
    (remoteDir key fmt p : string) :
  (forall a b, (localeCompare a b <= 0)%Z \/ (localeCompare b a <= 0)%Z) ->
  (forall a b c, (localeCompare a b <= 0)%Z -> (localeCompare b c <= 0)%Z ->
                 (localeCompare a c <= 0)%Z) ->
  getYesterdayRemoteFile localeCompare join_path names remoteDir key fmt
  = Some p ->
  exists name,
    p = join_path remoteDir name
    /\ name ∈ names
    /\ matches_name key fmt name = true
    /\ forall other,
         other ∈ names -> matches_name key fmt other = true ->
         (localeCompare other name <= 0)%Z.
Proof.
  intros Htotal Htrans Hp.
  apply getYesterdayRemoteFile_Some in Hp
    as (name & Hhead & -> & Hin & Hm).
  exists name. split_and!; [done..|]. intros other Hother Hmo.
  eapply head_sort_descending_max; [done..|].
  apply list_elem_of_filter. split; [by apply Is_true_true|done].
Qed.

(** X20 at a listing with two files of yesterday and two other names,
    with the names compared by the number that their digits spell. *)
Lemma remote_file_is_latest_witness :
  let names := [ "em-fleet-11-01-2026-09-30.csv"; "readme.txt";
                 "em-fleet-11-01-2026-17-05.csv";
                 "em-fleet-10-31-2026-23-59.csv" ] in
  let join := fun dir name => dir +:+ "/" +:+ name in
  getYesterdayRemoteFile compare_by_digits join names "/archive"
                         "11-01-2026" "csv"
  = Some "/archive/em-fleet-11-01-2026-17-05.csv"
  /\ exists name,
       "/archive/em-fleet-11-01-2026-17-05.csv" = join "/archive" name
       /\ name ∈ names
       /\ matches_name "11-01-2026" "csv" name = true
       /\ forall other,
            other ∈ names -> matches_name "11-01-2026" "csv" other = true ->
            (compare_by_digits other name <= 0)%Z.
Proof.
  intros names join. split; [by vm_compute|].
  apply (remote_file_is_latest compare_by_digits join names "/archive"
           "11-01-2026" "csv").
  - intros a b. unfold compare_by_digits. lia.
  - intros a b c. unfold compare_by_digits. lia.
  - by vm_compute.
Defined.

(** ** The download of yesterday's file *)

(** X21.  Whatever the remote side does, a download starts with the
    connection and ends with the call that closes it, and closes it once:
    also when the connection, the listing or the transfer throws, and when
    there is no file to fetch. *)
Theorem download_always_ends (localeCompare : string -> string -> Z)
    (join_path : string -> string -> string)
    (sftpRemoteDir key localPath fmt : string) (env : remote) :
  let run := downloadYesterdayFile localeCompare join_path sftpRemoteDir
                                   key localPath fmt env [] in
  head run.1 = Some SftpConnect
  /\ last run.1 = Some SftpEnd
  /\ length (filter (fun c => is_end c) run.1) = 1.
Proof. download_cases env; by split_and!. Qed.

(** X22.  A download gives the local path only after a transfer of the
    file that was found, and that transfer succeeded; it gives [null] only
    when the listing has no file of yesterday, and then no transfer is
    asked for; and what it throws is the failure of a call on the
    client. *)
Theorem download_result (localeCompare : string -> string -> Z)
    (join_path : string -> string -> string)
    (sftpRemoteDir key localPath fmt : string) (env : remote) :
  let run := downloadYesterdayFile localeCompare join_path sftpRemoteDir
                                   key localPath fmt env [] in
  let found names :=
    getYesterdayRemoteFile localeCompare join_path names sftpRemoteDir
                           key fmt in
  (forall p,
     run.2 = Done (Some p) ->
     p = localPath
     /\ exists names remotePath,
          listing env = Some names
          /\ found names = Some remotePath
          /\ get_ok env remotePath = true
          /\ SftpGet remotePath localPath ∈ run.1)
  /\ (run.2 = Done None ->
      filter (fun c => is_get c) run.1 = []
      /\ exists names, listing env = Some names /\ found names = None)
  /\ (forall e, run.2 = Thrown e -> e = IOFailure).
Proof.
  download_cases env; split_and!; try done; try (intros ? [=]; done).
  - intros p [= <-]. split; [done|]. exists names, remotePath.
    split_and!; try done. rewrite !elem_of_cons. auto.
  - intros _. split; [done|]. by exists names.
Qed.

(** X22 at a remote side with one file of yesterday that transfers. *)
Lemma download_result_witness :
  let join := fun dir name => dir +:+ "/" +:+ name in
  let env := Remote true (Some ["em-fleet-11-01-2026-09-30.csv"])
                    (fun _ => true) in
  let run := downloadYesterdayFile compare_by_digits join "/archive"
               "11-01-2026" "temp-yesterday.csv" "csv" env [] in
  run.2 = Done (Some "temp-yesterday.csv")
  /\ SftpGet "/archive/em-fleet-11-01-2026-09-30.csv" "temp-yesterday.csv"
     ∈ run.1.
Proof.
  intros join env run.
  destruct (download_result compare_by_digits join "/archive" "11-01-2026"
              "temp-yesterday.csv" "csv" env) as (H & _).
  assert (run.2 = Done (Some "temp-yesterday.csv")) as Hrun
    by (vm_compute; reflexivity).
  destruct (H _ Hrun) as (_ & names & remotePath & Hl & Hf & _ & Hin).
  split; [exact Hrun|].
  injection Hl as <-. vm_compute in Hf. injection Hf as <-. exact Hin.
Defined.

(** ** Trimmed lines stay trimmed under the override *)

Lemma ends_with_ws_cons (a b : ascii) (s : string) :
  ends_with_ws (String a (String b s)) = ends_with_ws (String b s).
Proof. reflexivity. Qed.

Lemma ends_with_ws_trim_end (s : string) :
  ends_with_ws (Text.trim_end s) = false.
Proof.
  induction s as [|a s IH]; [done|]. simpl.
  destruct (Text.trim_end s) as [|b r].
  - destruct (Text.is_ws a) eqn:Ha; [done|]. by simpl.
  - by rewrite ends_with_ws_cons.
Qed.

Lemma trim_end_fixed (s : string) :
  ends_with_ws s = false -> Text.trim_end s = s.
Proof.
  induction s as [|a s IH]; [done|]. destruct s as [|b s].
  - simpl. by intros ->.
  - rewrite ends_with_ws_cons. intros H.
    change (Text.trim_end (String a (String b s)))
      with (match Text.trim_end (String b s) with
            | EmptyString =>
                if Text.is_ws a then EmptyString else String a EmptyString
            | r => String a r
            end).
    by rewrite (IH H).
Qed.

(** A text is trimmed exactly when it neither starts nor ends with white
    space. *)
Lemma trim_fixed_iff (s : string) :
  Text.trim s = s <-> starts_with_ws s = false /\ ends_with_ws s = false.
Proof.
  split.
  - intros H. rewrite <- H. unfold Text.trim. split.
    + pose proof (trim_start_head s) as Hh.
      destruct (Text.trim_start s) as [|a t]; [done|].
      destruct (trim_end_head a t Hh) as [r ->]. done.
    + apply ends_with_ws_trim_end.
  - intros [H1 H2]. unfold Text.trim.
    assert (Text.trim_start s = s) as ->; [|by apply trim_end_fixed].
    destruct s as [|a s]; [done|]. simpl in *. by rewrite H1.
Qed.

Lemma starts_with_ws_app (x t : string) :
  starts_with_ws (x +:+ t)
  = match x with
    | EmptyString => starts_with_ws t
    | _ => starts_with_ws x
    end.
Proof. by destruct x. Qed.

Lemma ends_with_ws_app (x t : string) :
  ends_with_ws (x +:+ t)
  = match t with
    | EmptyString => ends_with_ws x
    | _ => ends_with_ws t
    end.
Proof.
  induction x as [|a x IH].
  - by destruct t.
  - rewrite append_cons. destruct x as [|b x].
    + change ("" +:+ t) with t. by destruct t.
    + rewrite append_cons in *. rewrite ends_with_ws_cons, IH.
      by destruct t.
Qed.

Lemma starts_with_ws_join (xs : list string) :
  starts_with_ws (Text.join "," xs)
  = starts_with_ws (default "" (head xs)).
Proof.
  destruct xs as [|x [|y ys]]; [done..|].
  rewrite join_cons_cons, starts_with_ws_app. by destruct x.
Qed.

Lemma ends_with_ws_join (xs : list string) :
  ends_with_ws (Text.join "," xs) = ends_with_ws (default "" (last xs)).
Proof.
  induction xs as [|x xs IH]; [done|]. destruct xs as [|y ys]; [done|].
  rewrite last_cons_cons, <- IH, join_cons_cons.
  change (x +:+ "," +:+ Text.join "," (y :: ys))
    with (x +:+ String Text.COMMA (Text.join "," (y :: ys))).
  rewrite ends_with_ws_app. by destruct (Text.join "," (y :: ys)).
Qed.

Lemma join_two_nonempty (x y : string) (ys : list string) :
  Text.join "," (x :: y :: ys) ≠ "".
Proof. rewrite join_cons_cons. by destruct x. Qed.

(** The override keeps a trimmed line trimmed, when the word does not end
    with white space, and it never leaves an empty line. *)
Lemma recolor_trimmed (words : list string) (i : nat) (line : string) :
  ends_with_ws (default "" (word_at words i)) = false ->
  Text.trim line = line ->
  Text.trim (recolor words i line) = recolor words i line
  /\ recolor words i line ≠ "".
Proof.
  intros Hw Hline.
  assert (line = Text.join "," (cols_of line)) as Hjoin.
  { unfold cols_of. change "," with (String Text.COMMA "").
    by rewrite join_split_on. }
  apply trim_fixed_iff in Hline as [Hs He].
  rewrite Hjoin, starts_with_ws_join in Hs.
  rewrite Hjoin, ends_with_ws_join in He.
  pose proof (split_on_nonempty Text.COMMA line) as Hne.
  fold (cols_of line) in Hne.
  unfold recolor, join_cols. rewrite render_set_at.
  unfold defleetIdx.color.
  destruct (cols_of line) as [|c0 cols] eqn:Ecols; [done|].
  destruct (Nat.ltb_spec 7 (length (c0 :: cols))) as [Hlen|Hlen].
  - change (<[7:=default "" (word_at words i)]> (c0 :: cols))
      with (c0 :: <[6:=default "" (word_at words i)]> cols).
    split.
    + apply trim_fixed_iff. rewrite starts_with_ws_join, ends_with_ws_join.
      split; [done|].
      change (c0 :: <[6:=default "" (word_at words i)]> cols)
        with (<[7:=default "" (word_at words i)]> (c0 :: cols)).
      rewrite last_lookup, length_insert.
      destruct (decide (pred (length (c0 :: cols)) = 7)) as [->|Hp].
      * by rewrite list_lookup_insert_eq by done.
      * rewrite list_lookup_insert_ne by done.
        by rewrite <- last_lookup.
    + simpl in Hlen. destruct cols as [|c1 cols]; [simpl in Hlen; lia|].
      apply join_two_nonempty.
  - split.
    + apply trim_fixed_iff. rewrite starts_with_ws_join, ends_with_ws_join.
      split; [done|]. by rewrite app_assoc, last_snoc.
    + destruct cols as [|c1 cols]; [|apply join_two_nonempty].
      simpl. by destruct c0.
Qed.

Lemma snapshot_lines_clean (text : string) :
  Forall clean_line (snapshot_lines text).
Proof.
  pose proof (trimmed_lines_one_line text) as H1.
  rewrite !Forall_forall in *. intros l [Ht Hb]%snapshot_lines_elem.
  split_and!; [by apply H1|by eapply trimmed_lines_fixed|done].
Qed.

Lemma load_yesterday_clean (yest : option string) :
  Forall clean_line (load_yesterday yest).
Proof.
  destruct yest as [text|]; [|by constructor]. unfold load_yesterday.
  assert (Forall clean_line (Arr.shift (snapshot_lines text))) as H
    by apply Forall_drop, snapshot_lines_clean.
  destruct (2 <=? length (Arr.shift (snapshot_lines text))); [|done].
  unfold Arr.splice. cbn [snd].
  apply Forall_app. split; [by apply Forall_take|by apply Forall_drop].
Qed.

(** The lines that a completed override loop leaves are clean, when the
    lines it started from are and no word has a line break in it or white
    space at its end. *)
Lemma mutated_clean (words working mutated : list string) :
  one_lines words ->
  Forall (fun w => ends_with_ws w = false) words ->
  Forall clean_line working ->
  apply_override words working = Done mutated ->
  Forall clean_line mutated.
Proof.
  intros Hw1 Hw2 Hwork Hdone.
  assert (one_lines mutated) as Hone.
  { eapply mutated_one_line; [done| |done].
    eapply Forall_impl; [exact Hwork|]. by intros l (? & _). }
  assert (forall i, ends_with_ws (default "" (word_at words i)) = false)
    as Hword.
  { intros i. unfold word_at. destruct (length words); [done|].
    destruct (words !! _) as [w|] eqn:E; [|done]. simpl.
    rewrite Forall_forall in Hw2.
    by eapply Hw2, list_elem_of_lookup_2. }
  rewrite (apply_override_done _ _ _ Hdone) in *.
  destruct (10 <=? length working); [|by constructor].
  apply Forall_app in Hone as [Hone1 Hone2].
  apply Forall_app. split; [by apply Forall_take|].
  apply Forall_forall. intros l Hl.
  rewrite Forall_forall in Hone2. specialize (Hone2 l Hl).
  apply list_elem_of_lookup in Hl as (j & Hj).
  rewrite list_lookup_imap in Hj.
  destruct (drop _ _ !! j) as [x|] eqn:Ex; [|done]. injection Hj as <-.
  rewrite lookup_drop in Ex. apply list_elem_of_lookup_2 in Ex.
  rewrite Forall_forall in Hwork. destruct (Hwork x Ex) as (_ & Ht & _).
  destruct (recolor_trimmed words j x (Hword j) Ht). by split_and!.
Qed.

(** X2.  What the next run loads from the merged snapshot of a completed
    run, for every new batch text and every snapshot text: the mutated
    tail and the new lines, less the last 2 of them, which were the error
    rows of the day. *)
Theorem next_run_loads_merged (today : string) (yest : option string)
    (mutated : list string) :
  apply_override commonWords (take_defleet (load_yesterday yest)).2
  = Done mutated ->
  load_yesterday (Some (merge_csv mutated (parseCsvRecords today)))
  = let all := mutated ++ parseCsvRecords today in
    if 2 <=? length all then take (length all - 2) all else all.
Proof.
  intros Hdone. apply merged_snapshot_reloads.
  apply Forall_app. split; [|apply parseCsvRecords_clean].
  apply (mutated_clean commonWords
           (take_defleet (load_yesterday yest)).2 mutated);
    [by repeat constructor|by repeat constructor| |done].
  pose proof (load_yesterday_clean yest) as Hc.
  rewrite take_defleet_spec.
  destruct (10 <=? length (load_yesterday yest)); cbn [snd];
    [by apply Forall_take|done].
Qed.

(** X2 at a snapshot of 22 records and a new batch of 3 lines: the next
    run loads 13 lines. *)
Lemma next_run_loads_merged_witness :
  let row (n : nat) :=
    "Alamo,ODY-1,ADN" +:+ Text.toString n +:+ ",TX,2024,Kia,Rio,red,VIN,G" in
  let yest := Text.join Text.NL ("24" :: (row <$> seq 0 22) ++ ["e1"; "e2"]) in
  let today := Text.join Text.NL ["National,ODY-2,ADN9001,CA"; "e3"; "e4"] in
  exists mutated,
    apply_override commonWords
                   (take_defleet (load_yesterday (Some yest))).2
    = Done mutated
    /\ length (load_yesterday
                 (Some (merge_csv mutated (parseCsvRecords today)))) = 13.
Proof.
  intros row yest today.
  destruct (apply_override commonWords
              (take_defleet (load_yesterday (Some yest))).2)
    as [mutated|f] eqn:E; [|vm_compute in E; discriminate].
  exists mutated. split; [done|].
  rewrite (next_run_loads_merged today (Some yest) mutated E).
  vm_compute in E. injection E as <-. by vm_compute.
Defined.
